(** * socket-test: streaming delivery, persistence and presence

    A shallow embedding of [src/server.ts] (the message store, the session
    directory, the presence map, the streaming orchestrator [startAIStream]
    and the Socket.IO handlers) together with the record types of
    [types.ts] and the escaping of the page script [public/ai-client.ts],
    and the properties of the specification proved about it.

    Conventions of the embedding
    - JavaScript strings are [string]; the empty string is the falsy one.
    - [Date.now()] and [crypto.randomUUID()] read two supplies carried by the
      world ([clock], [uuids]); every call consumes one entry.
    - The two JSON files are [option (list _)]: [None] is a file that does
      not exist yet, which [ensureStore] creates empty.
    - Observable effects (calls of [writeStore] / [writeSessions], socket
      emissions, the call of [agent.streamText], [console.error]) are
      appended, in program order, to the trace [fx] of the world. *)

From Stdlib Require Import ZArith List String Ascii Sorted Permutation Lia.
From stdpp Require Import base option list gmap strings.

Local Open Scope string_scope.
Local Open Scope list_scope.
Local Open Scope Z_scope.

(** ** Data model ([types.ts]) *)

Inductive Role := user | ai | system.

Inductive MessageBody :=
| text (content : string)
| tool_use (content : string)
| tool_result (content : string).

Module Message.
Record t := mk {
  id : string;
  to : string;
  sessionId : string;
  timestamp : Z;
  delivered : bool;
  deliveredAt : option Z;
  role : Role;
  message : MessageBody
}.
End Message.
Abbreviation Message := Message.t.

Module SessionItem.
Record t := mk {
  id : string;
  userId : string;
  title : string;
  createdAt : Z;
  updatedAt : Z
}.
End SessionItem.
Abbreviation SessionItem := SessionItem.t.

(** [ServerToClientEvents] *)
Inductive Notification :=
| ai_started (id sessionId : string)
| ai_chunk (id sessionId delta : string)
| ai_complete (id sessionId text : string)
| ai_tool_call (sessionId name : string)
| ai_tool_result (sessionId name : string)
| session_list (items : list SessionItem)
| session_messages (sessionId : string) (messages : list Message).

(** ** The world the server runs in *)

Inductive Effect :=
| Emit (socketId : string) (n : Notification)
| WriteStore (data : list Message)
| WriteSessions (data : list SessionItem)
| StreamText (input : string)
| ConsoleError (err : string).

Record World := mkWorld {
  dataDir : bool;
  msgFile : option (list Message);
  sessFile : option (list SessionItem);
  onlineUsers : gmap string string;
  socketData : gmap string string;
  clock : nat -> Z;
  ticks : nat;
  uuids : nat -> string;
  drawn : nat;
  fx : list Effect
}.

Definition set_dataDir (b : bool) (w : World) : World :=
  mkWorld b (msgFile w) (sessFile w) (onlineUsers w) (socketData w)
          (clock w) (ticks w) (uuids w) (drawn w) (fx w).
Definition set_msgFile (f : option (list Message)) (w : World) : World :=
  mkWorld (dataDir w) f (sessFile w) (onlineUsers w) (socketData w)
          (clock w) (ticks w) (uuids w) (drawn w) (fx w).
Definition set_sessFile (f : option (list SessionItem)) (w : World) : World :=
  mkWorld (dataDir w) (msgFile w) f (onlineUsers w) (socketData w)
          (clock w) (ticks w) (uuids w) (drawn w) (fx w).
Definition set_onlineUsers (m : gmap string string) (w : World) : World :=
  mkWorld (dataDir w) (msgFile w) (sessFile w) m (socketData w)
          (clock w) (ticks w) (uuids w) (drawn w) (fx w).
Definition set_socketData (m : gmap string string) (w : World) : World :=
  mkWorld (dataDir w) (msgFile w) (sessFile w) (onlineUsers w) m
          (clock w) (ticks w) (uuids w) (drawn w) (fx w).
Definition set_ticks (n : nat) (w : World) : World :=
  mkWorld (dataDir w) (msgFile w) (sessFile w) (onlineUsers w) (socketData w)
          (clock w) n (uuids w) (drawn w) (fx w).
Definition set_drawn (n : nat) (w : World) : World :=
  mkWorld (dataDir w) (msgFile w) (sessFile w) (onlineUsers w) (socketData w)
          (clock w) (ticks w) (uuids w) n (fx w).
Definition set_fx (l : list Effect) (w : World) : World :=
  mkWorld (dataDir w) (msgFile w) (sessFile w) (onlineUsers w) (socketData w)
          (clock w) (ticks w) (uuids w) (drawn w) l.

(** The message log and the session directory as their readers see them:
    a missing file reads as the empty collection. *)
Definition log (w : World) : list Message := default [] (msgFile w).
Definition directory (w : World) : list SessionItem := default [] (sessFile w).

(** ** A state monad over the world *)

Definition M (A : Type) : Type := World -> A * World.

Definition ret {A} (a : A) : M A := fun w => (a, w).
Definition bind {A B} (m : M A) (k : A -> M B) : M B :=
  fun w => let (a, w') := m w in k a w'.
Definition exec {A} (m : M A) (w : World) : World := snd (m w).
Definition eval {A} (m : M A) (w : World) : A := fst (m w).

Notation "'let*' x ':=' m 'in' k" := (bind m (fun x => k))
  (at level 10, x name, m at level 100, k at level 200).
Notation "m ';;' k" := (bind m (fun _ => k))
  (at level 100, k at level 200, right associativity).

Definition modify (f : World -> World) : M unit := fun w => (tt, f w).
Definition gets {A} (f : World -> A) : M A := fun w => (f w, w).

(** JavaScript truthiness of a string. *)
Definition truthy (s : string) : bool := negb (String.eqb s "").

Definition Date_now : M Z :=
  fun w => (clock w (ticks w), set_ticks (S (ticks w)) w).
Definition randomUUID : M string :=
  fun w => (uuids w (drawn w), set_drawn (S (drawn w)) w).
Definition perform (e : Effect) : M unit :=
  modify (fun w => set_fx (fx w ++ [e]) w).
Definition emit (socketId : string) (n : Notification) : M unit :=
  perform (Emit socketId n).

(** ** Simple file-based message store *)

Definition ensureStore : M unit :=
  (let* dir := gets dataDir in
   if dir then ret tt else modify (set_dataDir true));;
  (let* mf := gets msgFile in
   match mf with Some _ => ret tt | None => modify (set_msgFile (Some [])) end);;
  (let* sf := gets sessFile in
   match sf with Some _ => ret tt | None => modify (set_sessFile (Some [])) end).

Definition readStore : M (list Message) := ensureStore;; gets log.

Definition writeStore (data : list Message) : M unit :=
  modify (set_msgFile (Some data));; perform (WriteStore data).

Definition readSessions : M (list SessionItem) := ensureStore;; gets directory.

Definition writeSessions (data : list SessionItem) : M unit :=
  modify (set_sessFile (Some data));; perform (WriteSessions data).

(** [Array.prototype.sort] with a comparator: stable, the comparator gives
    a negative, zero or positive number. *)
Section Sort.
Context {A : Type} (cmp : A -> A -> Z).

Fixpoint sort_insert (x : A) (l : list A) : list A :=
  match l with
  | [] => [x]
  | y :: l' => if cmp x y <=? 0 then x :: y :: l' else y :: sort_insert x l'
  end.

Definition sort_by (l : list A) : list A := foldr sort_insert [] l.
End Sort.

(** [Array.prototype.findIndex]; [None] stands for [-1]. *)
Fixpoint findIndex {A} (p : A -> bool) (l : list A) : option nat :=
  match l with
  | [] => None
  | x :: l' => if p x then Some O else S <$> findIndex p l'
  end.

(** [Array.prototype.includes] on an array of strings. *)
Definition includes (ids : list string) (x : string) : bool :=
  existsb (String.eqb x) ids.

Definition getSessionsForUser (userId : string) : M (list SessionItem) :=
  let* data := readSessions in
  ret (sort_by (fun a b => SessionItem.updatedAt b - SessionItem.updatedAt a)
         (List.filter (fun s => String.eqb (SessionItem.userId s) userId) data)).

Definition upsertSession (item : SessionItem) : M unit :=
  let* data := readSessions in
  match findIndex (fun s => String.eqb (SessionItem.id s) (SessionItem.id item)) data with
  | Some idx => writeSessions (<[idx := item]> data)
  | None => writeSessions (data ++ [item])
  end.

Definition addMessage (msg : Message) : M unit :=
  let* data := readStore in
  writeStore (data ++ [msg]).

(** The callback of [data.messages.map] in [markMessagesDelivered]; it
    sets the captured flag [changed] as a side effect, threaded here. *)
Definition mark_one (ids : list string) (now : Z) (changed : bool) (m : Message)
  : bool * Message :=
  if includes ids (Message.id m) && negb (Message.delivered m)
  then (true, Message.mk (Message.id m) (Message.to m) (Message.sessionId m)
                (Message.timestamp m) true (Some now)
                (Message.role m) (Message.message m))
  else (changed, m).

Fixpoint mark_map (ids : list string) (now : Z) (changed : bool) (ms : list Message)
  : bool * list Message :=
  match ms with
  | [] => (changed, [])
  | m :: ms' =>
      let (c1, m') := mark_one ids now changed m in
      let (c2, ms'') := mark_map ids now c1 ms' in
      (c2, m' :: ms'')
  end.

Definition markMessagesDelivered (ids : list string) : M unit :=
  match ids with
  | [] => ret tt
  | _ :: _ =>
      let* data := readStore in
      let* now := Date_now in
      let (changed, messages) := mark_map ids now false data in
      if changed then writeStore messages else ret tt
  end.


(** ** The streaming orchestrator *)

(** One event of [response.fullStream]. [text_delta None] is a delta
    whose [text] field is missing; [other_event] is any event type the
    loop does not name. *)
Inductive StreamEvent :=
| text_delta (text : option string)
| tool_call (toolName : string)
| tool_result_event (toolName : string)
| finish
| other_event (type : string).

(** How the feed ends: the iterator throws, or it is exhausted and the
    promise [response.text] rejects or resolves. The registry is the
    presence map as the gateway left it when the promise resolves. *)
Inductive FeedEnd :=
| feed_throws (err : string)
| text_rejects (err : string)
| text_resolves (registry : gmap string string) (finalText : string).

(** What the generation engine does for one invocation. Every event comes
    with the presence map as the gateway handlers ([register],
    [disconnect]) left it while the orchestrator was suspended waiting for
    that event. Within one invocation the message store is changed by that
    invocation only. *)
Inductive Engine :=
| stream_rejects (err : string)
| stream_yields (items : list (gmap string string * StreamEvent)) (fin : FeedEnd).

(** Local state per stream. *)
Record Stream := mkStream {
  messageId : string;
  textSoFar : string;
  done : bool
}.

(** [const sid = onlineUsers.get(userId); if (sid) ...] *)
Definition if_online (userId : string) (k : string -> M unit) : M unit :=
  let* sid := gets (fun w => onlineUsers w !! userId) in
  match sid with
  | Some sid => if truthy sid then k sid else ret tt
  | None => ret tt
  end.

(** The part of [startAIStream] that runs before its first [await]. *)
Definition stream_start (userId sessionId input : string) : M Stream :=
  let* messageId := randomUUID in
  if_online userId (fun targetSocketId =>
    emit targetSocketId (ai_started messageId sessionId));;
  perform (StreamText input);;
  ret (mkStream messageId "" false).

(** The body of the [for await] loop. *)
Definition stream_event (userId sessionId : string) (st : Stream) (event : StreamEvent)
  : M Stream :=
  match event with
  | text_delta t =>
      let delta := default "" t in
      if negb (done st) && truthy delta then
        let st' := mkStream (messageId st) (textSoFar st +:+ delta) (done st) in
        if_online userId (fun sid =>
          emit sid (ai_chunk (messageId st) sessionId delta));;
        ret st'
      else ret st
  | tool_call toolName =>
      let* i := randomUUID in
      let* ts := Date_now in
      let toolMsg := Message.mk i userId sessionId ts false None system (tool_use toolName) in
      addMessage toolMsg;;
      if_online userId (fun sid =>
        emit sid (ai_tool_call sessionId toolName);;
        markMessagesDelivered [Message.id toolMsg]);;
      ret st
  | tool_result_event toolName =>
      let* i := randomUUID in
      let* ts := Date_now in
      let toolResMsg := Message.mk i userId sessionId ts false None system (tool_result toolName) in
      addMessage toolResMsg;;
      if_online userId (fun sid =>
        emit sid (ai_tool_result sessionId toolName);;
        markMessagesDelivered [Message.id toolResMsg]);;
      ret st
  | finish => ret st
  | other_event _ => ret st
  end.

Fixpoint stream_consume (userId sessionId : string) (st : Stream)
  (items : list (gmap string string * StreamEvent)) : M Stream :=
  match items with
  | [] => ret st
  | (registry, event) :: items' =>
      modify (set_onlineUsers registry);;
      let* st' := stream_event userId sessionId st event in
      stream_consume userId sessionId st' items'
  end.

(** [a || b] on strings. *)
Definition or_else (a b : string) : string := if truthy a then a else b.

(** After the loop: [response.text] has resolved to [finalText]. *)
Definition stream_finalize (userId sessionId : string) (st : Stream) (finalText : string)
  : M Stream :=
  let st1 := mkStream (messageId st) (or_else finalText (textSoFar st)) true in
  let* ts := Date_now in
  let finalMsg := Message.mk (messageId st1) userId sessionId ts false None ai
                    (text (or_else (textSoFar st1) "")) in
  addMessage finalMsg;;
  if_online userId (fun sid =>
    emit sid (ai_complete (messageId st1) sessionId (or_else (textSoFar st1) ""));;
    markMessagesDelivered [messageId st1]);;
  ret st1.

(** The [catch] block. *)
Definition stream_catch (st : Stream) (err : string) : M Stream :=
  perform (ConsoleError err);;
  ret (mkStream (messageId st) (textSoFar st) true).

(** What [startAIStream] does once the engine answers. *)
Definition stream_resume (userId sessionId : string) (eng : Engine) (st : Stream)
  : M Stream :=
  match eng with
  | stream_rejects err => stream_catch st err
  | stream_yields items fin =>
      let* st' := stream_consume userId sessionId st items in
      match fin with
      | feed_throws err => stream_catch st' err
      | text_rejects err => stream_catch st' err
      | text_resolves registry finalText =>
          modify (set_onlineUsers registry);;
          stream_finalize userId sessionId st' finalText
      end
  end.

(** One whole invocation, the engine's behaviour given. *)
Definition startAIStream (userId sessionId input : string) (eng : Engine) : M Stream :=
  let* st := stream_start userId sessionId input in
  stream_resume userId sessionId eng st.

(** ** Socket.IO handlers *)

(** [String.prototype.trim], on the ASCII white space and line ends. *)
Definition is_space (c : ascii) : bool :=
  let n := nat_of_ascii c in
  ((9 <=? n) && (n <=? 13) || (n =? 32))%nat.

Fixpoint trim_start (s : list ascii) : list ascii :=
  match s with
  | c :: s' => if is_space c then trim_start s' else s
  | [] => []
  end.

Definition trim (s : string) : string :=
  string_of_list_ascii
    (rev (trim_start (rev (trim_start (list_ascii_of_string s))))).

Definition default_title : string := "新会话".

(** [socket.data.userId] of the connection [socket]. *)
Definition socket_userId (socket : string) : M (option string) :=
  gets (fun w => socketData w !! socket).

Definition register (socket userId : string) : M unit :=
  if negb (truthy userId) then ret tt else
  modify (fun w => set_socketData (<[socket := userId]> (socketData w)) w);;
  modify (fun w => set_onlineUsers (<[userId := socket]> (onlineUsers w)) w);;
  let* sessions := getSessionsForUser userId in
  emit socket (session_list sessions).

Definition session_create (socket sessionId : string) (title : option string) : M unit :=
  let* u := socket_userId socket in
  match u with
  | None => ret tt
  | Some userId =>
      if negb (truthy userId) || negb (truthy sessionId) then ret tt else
      let* now := Date_now in
      let* sessions := getSessionsForUser userId in
      let existing := List.find (fun s => String.eqb (SessionItem.id s) sessionId) sessions in
      let item := SessionItem.mk sessionId userId
        (match title with
         | Some t =>
             if truthy t && truthy (trim t) then t
             else or_else (default "" (SessionItem.title <$> existing)) default_title
         | None => or_else (default "" (SessionItem.title <$> existing)) default_title
         end)
        (default now (SessionItem.createdAt <$> existing))
        now in
      upsertSession item;;
      let* l := getSessionsForUser userId in
      emit socket (session_list l)
  end.

Definition session_open (socket sessionId : string) : M unit :=
  let* u := socket_userId socket in
  match u with
  | None => ret tt
  | Some userId =>
      if negb (truthy userId) || negb (truthy sessionId) then ret tt else
      let* data := readStore in
      let msgs :=
        sort_by (fun a b => Message.timestamp a - Message.timestamp b)
          (List.filter (fun m => String.eqb (Message.to m) userId
                                 && String.eqb (Message.sessionId m) sessionId) data) in
      emit socket (session_messages sessionId msgs)
  end.

(** The handler returns the stream it has started, suspended at its first
    [await]; nothing waits for it. *)
Definition ai_send (socket sessionId text_ : string) : M (option Stream) :=
  let* u := socket_userId socket in
  match u with
  | None => ret None
  | Some from =>
      if negb (truthy from) || negb (truthy text_) || negb (truthy sessionId)
      then ret None else
      let* i := randomUUID in
      let* ts := Date_now in
      let* dts := Date_now in
      let userMsg := Message.mk i from sessionId ts true (Some dts) user (text text_) in
      addMessage userMsg;;
      let* st := stream_start from sessionId text_ in
      let* sessions := getSessionsForUser from in
      let target := List.find (fun s => String.eqb (SessionItem.id s) sessionId) sessions in
      match target with
      | Some target =>
          let* now := Date_now in
          upsertSession (SessionItem.mk (SessionItem.id target) (SessionItem.userId target)
                           (SessionItem.title target) (SessionItem.createdAt target) now);;
          ret (Some st)
      | None => ret (Some st)
      end
  end.

Definition disconnect (socket : string) : M unit :=
  let* u := socket_userId socket in
  match u with
  | None => ret tt
  | Some userId =>
      if truthy userId then
        let* cur := gets (fun w => onlineUsers w !! userId) in
        if bool_decide (cur = Some socket)
        then modify (fun w => set_onlineUsers (delete userId (onlineUsers w)) w)
        else ret tt
      else ret tt
  end.

(** ** The client's escaping ([public/ai-client.ts]) *)

(** The bubbles of the page are filled with [escapeHtml] of the received
    text. [s.replace(/c/g, r)] for a pattern of one literal character [c] and a
    replacement [r] without [$]: every occurrence, left to right. *)
Fixpoint replace_all (c : ascii) (r : string) (s : string) : string :=
  match s with
  | EmptyString => EmptyString
  | String a s' =>
      if Ascii.eqb a c then r +:+ replace_all c r s'
      else String a (replace_all c r s')
  end.

Definition escapeHtml (str : string) : string :=
  replace_all "'" "&#039;"
    (replace_all "034" "&quot;"
       (replace_all ">" "&gt;"
          (replace_all "<" "&lt;"
             (replace_all "&" "&amp;" str)))).
(** * Vocabulary of the specification *)

(** The world once [ensureStore] has run. *)
Definition ensured (w : World) : World :=
  mkWorld true (Some (log w)) (Some (directory w)) (onlineUsers w) (socketData w)
          (clock w) (ticks w) (uuids w) (drawn w) (fx w).

(** What [markMessagesDelivered] does to one record. *)
Definition pending (ids : list string) (m : Message) : bool :=
  includes ids (Message.id m) && negb (Message.delivered m).

(** The record [m] with [delivered] set and [deliveredAt] stamped. *)
Definition stamped (now : Z) (m : Message) : Message :=
  Message.mk (Message.id m) (Message.to m) (Message.sessionId m)
    (Message.timestamp m) true (Some now) (Message.role m) (Message.message m).

Definition mark (ids : list string) (now : Z) (m : Message) : Message :=
  if pending ids m then stamped now m else m.

(** A sequence of operations on the message store. *)
Inductive StoreOp :=
| op_addMessage (msg : Message)
| op_markMessagesDelivered (ids : list string).

Definition store_op (op : StoreOp) : M unit :=
  match op with
  | op_addMessage msg => addMessage msg
  | op_markMessagesDelivered ids => markMessagesDelivered ids
  end.

Fixpoint store_ops (ops : list StoreOp) : M unit :=
  match ops with
  | [] => ret tt
  | op :: ops' => store_op op;; store_ops ops'
  end.

(** [m'] is a later state of the persisted record [m]: every field but
    [delivered] and [deliveredAt] is the same, and [delivered] has not gone
    back to [false]. *)
Definition persists_as (m m' : Message) : Prop :=
  Message.id m' = Message.id m /\
  Message.to m' = Message.to m /\
  Message.sessionId m' = Message.sessionId m /\
  Message.timestamp m' = Message.timestamp m /\
  Message.role m' = Message.role m /\
  Message.message m' = Message.message m /\
  (Message.delivered m = true -> Message.delivered m' = true).

(** The log [l'] keeps every record of [l], in place, each in a later
    state, and has only added records after them. *)
Definition log_grows (l l' : list Message) : Prop :=
  exists kept added, l' = kept ++ added /\ Forall2 persists_as l kept.


(** The notifications of a trace, with the socket each was sent to. *)
Definition emissions (l : list Effect) : list (string * Notification) :=
  omap (fun e => match e with Emit s n => Some (s, n) | _ => None end) l.

(** Ascending by timestamp. *)
Definition by_timestamp (a b : Message) : Prop :=
  Message.timestamp a <= Message.timestamp b.

(** Descending by [updatedAt]. *)
Definition by_recency (a b : SessionItem) : Prop :=
  SessionItem.updatedAt b <= SessionItem.updatedAt a.

(** Two records that agree on every field but [delivered] and
    [deliveredAt]. *)
Definition same_record (m m' : Message) : Prop :=
  Message.id m' = Message.id m /\
  Message.to m' = Message.to m /\
  Message.sessionId m' = Message.sessionId m /\
  Message.timestamp m' = Message.timestamp m /\
  Message.role m' = Message.role m /\
  Message.message m' = Message.message m.

(** The records of one user's session. *)
Definition in_session (userId sessionId : string) (m : Message) : bool :=
  String.eqb (Message.to m) userId && String.eqb (Message.sessionId m) sessionId.

(** A process that has just started: no data directory, nobody connected;
    the clock gives 1000, 1001, ... and the ids are "a-uuid", "b-uuid", ... *)
Definition sample_uuid (n : nat) : string :=
  String (ascii_of_nat (97 + n)) "-uuid".

Definition boot : World :=
  mkWorld false None None ∅ ∅ (fun n => 1000 + Z.of_nat n) 0 sample_uuid 0 [].

(** A log with two sessions of one user and a record of another user. *)
Definition replay_world : World :=
  set_socketData {[ "sock1" := "alice" ]}
    (set_msgFile (Some
       [ Message.mk "m3" "alice" "s1" 30 false None ai (text "hello");
         Message.mk "m1" "alice" "s1" 10 true (Some 11) user (text "hi");
         Message.mk "m2" "alice" "s2" 20 false None system (tool_use "get_weather");
         Message.mk "m4" "bob" "s1" 5 false None ai (text "other") ]) boot).


(** What [getSessionsForUser] returns on a directory. *)
Definition listed (userId : string) (data : list SessionItem) : list SessionItem :=
  sort_by (fun a b => SessionItem.updatedAt b - SessionItem.updatedAt a)
    (List.filter (fun s => String.eqb (SessionItem.userId s) userId) data).

(** What [upsertSession] writes on a directory. *)
Definition upserted (item : SessionItem) (data : list SessionItem) : list SessionItem :=
  match findIndex (fun s => String.eqb (SessionItem.id s) (SessionItem.id item)) data with
  | Some idx => <[idx := item]> data
  | None => data ++ [item]
  end.

(** The session of that id, as the handlers look it up in a listing. *)
Definition session_with (sessionId : string) (l : list SessionItem) : option SessionItem :=
  List.find (fun s => String.eqb (SessionItem.id s) sessionId) l.

(** One connection, registered as alice. *)
Definition alice_online : World := exec (register "sock1" "alice") boot.

(** Alice, connected, with the session "s1" created. *)
Definition alice_in_s1 : World := exec (session_create "sock1" "s1" None) alice_online.

(** The item [session_create] builds: [existing] is the user's session of
    that id when there is one, [now] the time of the call. *)
Definition created_item (sessionId userId : string) (title : option string)
  (existing : option SessionItem) (now : Z) : SessionItem :=
  SessionItem.mk sessionId userId
    (match title with
     | Some t =>
         if truthy t && truthy (trim t) then t
         else or_else (default "" (SessionItem.title <$> existing)) default_title
     | None => or_else (default "" (SessionItem.title <$> existing)) default_title
     end)
    (default now (SessionItem.createdAt <$> existing))
    now.

(** The [ai_started] emission of [stream_start], when the user is online. *)
Definition started_fx (w : World) (userId artifact sessionId : string) : list Effect :=
  match onlineUsers w !! userId with
  | Some sid => if truthy sid then [Emit sid (ai_started artifact sessionId)] else []
  | None => []
  end.

(** The session [target] with [updatedAt] bumped. *)
Definition bumped (target : SessionItem) (now : Z) : SessionItem :=
  SessionItem.mk (SessionItem.id target) (SessionItem.userId target)
    (SessionItem.title target) (SessionItem.createdAt target) now.

(** The effects a computation adds to the trace. *)
Definition effects_of {A} (m : M A) (w : World) : list Effect :=
  drop (length (fx w)) (fx (exec m w)).

(** The order of effects in which the session is bumped before the
    orchestrator is invoked: a [writeSessions] comes before the call of
    [agent.streamText]. *)
Definition bump_before_invoke (l : list Effect) : Prop :=
  exists (i j : nat) data input,
    (i < j)%nat /\ l !! i = Some (WriteSessions data) /\ l !! j = Some (StreamText input).

(** ** Vocabulary for one invocation of the orchestrator *)

(** Role and body of a record. *)
Definition kind (m : Message) : Role * MessageBody :=
  (Message.role m, Message.message m).

(** The record an event of the feed makes the orchestrator persist. *)
Definition record_of (event : StreamEvent) : list (Role * MessageBody) :=
  match event with
  | tool_call toolName => [(system, tool_use toolName)]
  | tool_result_event toolName => [(system, tool_result toolName)]
  | _ => []
  end.

Definition tool_records (items : list (gmap string string * StreamEvent))
  : list (Role * MessageBody) :=
  flat_map (fun it => record_of (snd it)) items.

(** The text of a delta; other events carry none. *)
Definition delta_of (event : StreamEvent) : string :=
  match event with
  | text_delta t => default "" t
  | _ => ""
  end.

(** The concatenation of the text deltas of a feed. *)
Definition received_text (items : list (gmap string string * StreamEvent)) : string :=
  foldr (fun it acc => delta_of (snd it) +:+ acc) "" items.

(** The events at which the loop consults the presence map. *)
Definition looks_up (event : StreamEvent) : bool :=
  match event with
  | text_delta t => truthy (default "" t)
  | tool_call _ | tool_result_event _ => true
  | finish | other_event _ => false
  end.

(** The user has no presence entry at any lookup of the invocation: at
    the start, at every event that consults the map, and at the end. *)
Definition offline_throughout (userId : string) (w : World) (eng : Engine) : Prop :=
  onlineUsers w !! userId = None /\
  match eng with
  | stream_rejects _ => True
  | stream_yields items fin =>
      Forall (fun it => looks_up (snd it) = true -> fst it !! userId = None) items /\
      match fin with
      | text_resolves registry _ => registry !! userId = None
      | feed_throws _ | text_rejects _ => True
      end
  end.

(** The records an invocation is to persist: one per tool event, in feed
    order, then the final reply when the run succeeds. *)
Definition expected_records (eng : Engine) : list (Role * MessageBody) :=
  match eng with
  | stream_rejects _ => []
  | stream_yields items fin =>
      tool_records items ++
      match fin with
      | text_resolves _ finalText => [(ai, text (or_else finalText (received_text items)))]
      | feed_throws _ | text_rejects _ => []
      end
  end.

(** The log [l'] keeps the records of [l] (each in a later state) and has,
    after them, new records of the given roles and bodies. *)
Definition run_appends (l l' : list Message) (kinds : list (Role * MessageBody)) : Prop :=
  exists kept added,
    l' = kept ++ added /\ Forall2 persists_as l kept /\ map kind added = kinds.

(** The effects of a run that is making progress: store writes, the call
    of the engine, and the four notifications of a stream in flight. *)
Definition progress_effect (e : Effect) : bool :=
  match e with
  | WriteStore _ | StreamText _ => true
  | Emit _ (ai_started _ _) | Emit _ (ai_chunk _ _ _)
  | Emit _ (ai_tool_call _ _) | Emit _ (ai_tool_result _ _) => true
  | _ => false
  end.

(** A failing engine: the events consumed before the error, and the error. *)
Definition failure (eng : Engine)
  : option (list (gmap string string * StreamEvent) * string) :=
  match eng with
  | stream_rejects err => Some ([], err)
  | stream_yields items (feed_throws err) => Some (items, err)
  | stream_yields items (text_rejects err) => Some (items, err)
  | stream_yields _ (text_resolves _ _) => None
  end.

(** The pattern shared by the tool events and the final step: persist a
    record, then, when the user is online, notify and mark it delivered. *)
Definition persist_then_notify (userId : string) (msg : Message) (n : Notification)
  : M unit :=
  addMessage msg;;
  if_online userId (fun sid => emit sid n;; markMessagesDelivered [Message.id msg]).

(** A record of that user and session that has not been delivered. *)
Definition undelivered_for (userId sessionId : string) (m : Message) : Prop :=
  Message.delivered m = false /\ Message.deliveredAt m = None /\
  Message.to m = userId /\ Message.sessionId m = sessionId.

(** ** Sample engines *)

(** The feed of the scenario of the specification, as seen by a user who
    is on connection "sock1" all along. *)
Definition alice_registry : gmap string string := {[ "alice" := "sock1" ]}.

Definition weather_feed (registry : gmap string string)
  : list (gmap string string * StreamEvent) :=
  [ (registry, tool_call "get_weather");
    (registry, tool_result_event "get_weather");
    (registry, text_delta (Some "Go to "));
    (registry, text_delta None);
    (registry, text_delta (Some "the Bund"));
    (registry, finish) ].

(** A run with nobody connected, whose final aggregate is empty. *)
Definition offline_run : Engine :=
  stream_yields (weather_feed ∅) (text_resolves ∅ "").

(** A run seen online from start to end. *)
Definition online_run : Engine :=
  stream_yields (weather_feed alice_registry) (text_resolves alice_registry "Go to the Bund.").

(** A run whose feed throws after the tool call and one delta. *)
Definition failing_run : Engine :=
  stream_yields
    [ (alice_registry, tool_call "get_weather");
      (alice_registry, text_delta (Some "Go")) ]
    (feed_throws "boom").

(** A store with one undelivered and one delivered record. *)
Definition two_records : World :=
  set_msgFile (Some
    [ Message.mk "m1" "alice" "s1" 10 false None ai (text "hello");
      Message.mk "m2" "alice" "s1" 20 true (Some 21) user (text "hi") ]) boot.

(** ** Vocabulary for the further properties *)

(** The connection has declared no identity the handlers accept. *)
Definition no_identity (w : World) (socket : string) : Prop :=
  socketData w !! socket = None \/ socketData w !! socket = Some "".

(** Bob has created the session "s1" on his connection; alice has
    registered on hers. *)
Definition bob_has_s1 : World :=
  exec (register "sock1" "alice")
    (exec (session_create "sock2" "s1" (Some "Bob's")) (exec (register "sock2" "bob") boot)).

(** The notification [n] as [if_online] sends it under a presence map:
    to the user's connection, when there is one with a non-empty id. *)
Definition notified (registry : gmap string string) (userId : string) (n : Notification)
  : list (string * Notification) :=
  match registry !! userId with
  | Some sid => if truthy sid then [(sid, n)] else []
  | None => []
  end.

(** The notification an event of the feed gives rise to. *)
Definition event_notification (artifact sessionId : string) (event : StreamEvent)
  : option Notification :=
  match event with
  | text_delta t =>
      if truthy (default "" t) then Some (ai_chunk artifact sessionId (default "" t))
      else None
  | tool_call toolName => Some (ai_tool_call sessionId toolName)
  | tool_result_event toolName => Some (ai_tool_result sessionId toolName)
  | finish | other_event _ => None
  end.

Definition feed_notifications (userId artifact sessionId : string)
  (items : list (gmap string string * StreamEvent)) : list (string * Notification) :=
  flat_map (fun it =>
              match event_notification artifact sessionId (snd it) with
              | Some n => notified (fst it) userId n
              | None => []
              end) items.

(** All the notifications of one invocation, in order. *)
Definition run_notifications (w : World) (userId sessionId : string) (eng : Engine)
  : list (string * Notification) :=
  let artifact := uuids w (drawn w) in
  notified (onlineUsers w) userId (ai_started artifact sessionId) ++
  match eng with
  | stream_rejects _ => []
  | stream_yields items fin =>
      feed_notifications userId artifact sessionId items ++
      match fin with
      | text_resolves registry finalText =>
          notified registry userId
            (ai_complete artifact sessionId (or_else finalText (received_text items)))
      | feed_throws _ | text_rejects _ => []
      end
  end.

(** As [run_appends], with a property [P] of the records added. *)
Definition run_adds (P : Message -> Prop) (l l' : list Message)
  (kinds : list (Role * MessageBody)) : Prop :=
  exists kept added,
    l' = kept ++ added /\ Forall2 persists_as l kept /\
    map kind added = kinds /\ Forall P added.

(** The state in which [persist_then_notify] leaves the record it has
    persisted: stamped when the user is online, as it was otherwise. *)
Definition settled (registry : gmap string string) (userId : string) (now : Z)
  (msg : Message) : Message :=
  match registry !! userId with
  | Some sid => if truthy sid then stamped now msg else msg
  | None => msg
  end.

(** The user is online, on a connection with a non-empty id. *)
Definition online (userId : string) (registry : gmap string string) : Prop :=
  exists sid, registry !! userId = Some sid /\ sid <> "".

(** The user is online whenever the invocation persists a record: at
    every tool event and, when the run succeeds, at the end. *)
Definition online_when_persisting (userId : string) (eng : Engine) : Prop :=
  match eng with
  | stream_rejects _ => True
  | stream_yields items fin =>
      Forall (fun it => record_of (snd it) <> [] -> online userId (fst it)) items /\
      match fin with
      | text_resolves registry _ => online userId registry
      | feed_throws _ | text_rejects _ => True
      end
  end.


(** ** The server as a reactive system

    The process runs one piece of code at a time: a Socket.IO handler, or
    the resumption of one invocation of [startAIStream] at one of its
    [await]s. An invocation in flight keeps its local state between
    resumptions. *)

Record Flight := mkFlight {
  flight_user : string;
  flight_session : string;
  flight_stream : Stream
}.

Record System := mkSystem {
  world : World;
  flights : list Flight
}.

(** What can happen next: an intent arrives on a connection, a
    connection closes, or the engine answers the [k]-th invocation in
    flight with an event, with its final text, or with an error. *)
Inductive Action :=
| act_register (socket userId : string)
| act_session_create (socket sessionId : string) (title : option string)
| act_session_open (socket sessionId : string)
| act_ai_send (socket sessionId text_ : string)
| act_disconnect (socket : string)
| act_event (k : nat) (event : StreamEvent)
| act_resolve (k : nat) (finalText : string)
| act_fail (k : nat) (err : string).

Definition step (a : Action) (s : System) : System :=
  let w := world s in
  match a with
  | act_register socket userId =>
      mkSystem (exec (register socket userId) w) (flights s)
  | act_session_create socket sessionId title =>
      mkSystem (exec (session_create socket sessionId title) w) (flights s)
  | act_session_open socket sessionId =>
      mkSystem (exec (session_open socket sessionId) w) (flights s)
  | act_ai_send socket sessionId text_ =>
      match eval (ai_send socket sessionId text_) w, socketData w !! socket with
      | Some st, Some from =>
          mkSystem (exec (ai_send socket sessionId text_) w)
                   (flights s ++ [mkFlight from sessionId st])
      | _, _ => mkSystem (exec (ai_send socket sessionId text_) w) (flights s)
      end
  | act_disconnect socket =>
      mkSystem (exec (disconnect socket) w) (flights s)
  | act_event k event =>
      match flights s !! k with
      | Some f =>
          let m := stream_event (flight_user f) (flight_session f) (flight_stream f) event in
          mkSystem (exec m w)
                   (<[k := mkFlight (flight_user f) (flight_session f) (eval m w)]> (flights s))
      | None => s
      end
  | act_resolve k finalText =>
      match flights s !! k with
      | Some f =>
          mkSystem (exec (stream_finalize (flight_user f) (flight_session f)
                            (flight_stream f) finalText) w)
                   (delete k (flights s))
      | None => s
      end
  | act_fail k err =>
      match flights s !! k with
      | Some f => mkSystem (exec (stream_catch (flight_stream f) err) w) (delete k (flights s))
      | None => s
      end
  end.

Definition run_system (l : list Action) (s : System) : System :=
  fold_left (fun s a => step a s) l s.

(** The two worlds differ at most in the message file, the clock ticks,
    the ids drawn and the trace: what the orchestrator may change. *)
Definition same_outside_store (w w' : World) : Prop :=
  directory w' = directory w /\ onlineUsers w' = onlineUsers w /\
  socketData w' = socketData w /\ uuids w' = uuids w /\ clock w' = clock w.

(** The ids in use: those of the records of the log and the artifact ids
    of the invocations in flight. *)
Definition ids_in_use (s : System) : list string :=
  map Message.id (log (world s)) ++ map (fun f => messageId (flight_stream f)) (flights s).

(** [randomUUID] has not repeated itself and will not: the ids in use are
    distinct, and the ids still to be drawn are distinct from each other
    and from those in use. *)
Definition fresh_ids (s : System) : Prop :=
  NoDup (ids_in_use s) /\
  (forall i j, (drawn (world s) <= i)%nat -> (drawn (world s) <= j)%nat ->
     uuids (world s) i = uuids (world s) j -> i = j) /\
  (forall i, (drawn (world s) <= i)%nat -> ~ In (uuids (world s) i) (ids_in_use s)).

(** [delivered] and [deliveredAt] go together. *)
Definition flags_agree (m : Message) : Prop :=
  Message.delivered m = true <-> is_Some (Message.deliveredAt m).

(** A day of the server: two users, one session id, two invocations. *)
Definition boot_system : System := mkSystem boot [].

Definition busy_day : list Action :=
  [ act_register "sock1" "alice";
    act_session_create "sock1" "s1" None;
    act_ai_send "sock1" "s1" "where to play";
    act_register "sock2" "bob";
    act_event 0 (tool_call "get_weather");
    act_session_create "sock2" "s2" (Some "mine");
    act_ai_send "sock2" "s2" "hi";
    act_disconnect "sock1";
    act_event 0 (text_delta (Some "Go"));
    act_event 1 (tool_call "get_weather");
    act_resolve 0 "";
    act_fail 0 "boom" ].

(** A supply of ids that never repeats: "id-", "id-i", "id-ii", ... *)
Fixpoint tally (n : nat) : string :=
  match n with
  | O => ""
  | S n' => String "i"%char (tally n')
  end.

Definition tally_uuid (n : nat) : string := "id-" +:+ tally n.

Definition tally_system : System :=
  mkSystem (mkWorld false None None ∅ ∅ (fun n => 1000 + Z.of_nat n) 0 tally_uuid 0 []) [].

(** *** Escaping *)

(** What one character becomes. *)
Definition entity (c : ascii) : string :=
  if Ascii.eqb c "&" then "&amp;"
  else if Ascii.eqb c "<" then "&lt;"
  else if Ascii.eqb c ">" then "&gt;"
  else if Ascii.eqb c "034" then "&quot;"
  else if Ascii.eqb c "'" then "&#039;"
  else String c "".

(** The characters with a meaning in markup, [&] apart. *)
Definition markup (c : ascii) : bool :=
  Ascii.eqb c "<" || Ascii.eqb c ">" || Ascii.eqb c "034" || Ascii.eqb c "'".

Fixpoint join (l : list string) : string :=
  match l with
  | [] => ""
  | s :: l' => s +:+ join l'
  end.
(** * Properties *)

(** ** The monad and the store primitives *)

Lemma run_pair {A} (m : M A) (w : World) : m w = (eval m w, exec m w).
Proof. unfold eval, exec. destruct (m w); reflexivity. Qed.

Lemma bind_run {A B} (m : M A) (k : A -> M B) (w : World) :
  bind m k w = k (eval m w) (exec m w).
Proof. unfold bind. rewrite (run_pair m w). reflexivity. Qed.

Lemma exec_bind {A B} (m : M A) (k : A -> M B) (w : World) :
  exec (bind m k) w = exec (k (eval m w)) (exec m w).
Proof. unfold exec at 1. rewrite bind_run. reflexivity. Qed.

Lemma eval_bind {A B} (m : M A) (k : A -> M B) (w : World) :
  eval (bind m k) w = eval (k (eval m w)) (exec m w).
Proof. unfold eval at 1. rewrite bind_run. reflexivity. Qed.


Lemma ensureStore_eq w : ensureStore w = (tt, ensured w).
Proof. destruct w as [[] [?|] [?|] ? ? ? ? ? ? ?]; reflexivity. Qed.

Lemma ensured_idem w : ensured (ensured w) = ensured w.
Proof. reflexivity. Qed.

Lemma readStore_eq w : readStore w = (log w, ensured w).
Proof. unfold readStore. rewrite bind_run. unfold eval, exec. rewrite ensureStore_eq. reflexivity. Qed.

Lemma readSessions_eq w : readSessions w = (directory w, ensured w).
Proof. unfold readSessions. rewrite bind_run. unfold eval, exec. rewrite ensureStore_eq. reflexivity. Qed.

Lemma writeStore_eq data w :
  writeStore data w = (tt, set_fx (fx w ++ [WriteStore data]) (set_msgFile (Some data) w)).
Proof. reflexivity. Qed.

Lemma writeSessions_eq data w :
  writeSessions data w = (tt, set_fx (fx w ++ [WriteSessions data]) (set_sessFile (Some data) w)).
Proof. reflexivity. Qed.

Lemma addMessage_eq msg w :
  addMessage msg w =
  (tt, set_fx (fx w ++ [WriteStore (log w ++ [msg])])
         (set_msgFile (Some (log w ++ [msg])) (ensured w))).
Proof. unfold addMessage. rewrite bind_run. unfold eval, exec. rewrite readStore_eq. reflexivity. Qed.


Lemma mark_map_eq ids now changed ms :
  mark_map ids now changed ms = (changed || existsb (pending ids) ms, map (mark ids now) ms).
Proof.
  revert changed. induction ms as [|m ms IH]; intros changed; simpl.
  - now rewrite orb_false_r.
  - unfold mark_one, mark, stamped, pending.
    destruct (includes ids (Message.id m) && negb (Message.delivered m)) eqn:E;
      rewrite IH; simpl; [now rewrite orb_true_r | reflexivity].
Qed.

Lemma markMessagesDelivered_nil w : markMessagesDelivered [] w = (tt, w).
Proof. reflexivity. Qed.

Lemma markMessagesDelivered_eq ids w :
  ids <> [] ->
  markMessagesDelivered ids w =
  (tt, let w1 := set_ticks (S (ticks w)) (ensured w) in
       if existsb (pending ids) (log w)
       then set_fx (fx w ++ [WriteStore (map (mark ids (clock w (ticks w))) (log w))])
              (set_msgFile (Some (map (mark ids (clock w (ticks w))) (log w))) w1)
       else w1).
Proof.
  intros Hne. destruct ids as [|i ids]; [congruence|].
  unfold markMessagesDelivered. rewrite bind_run. unfold eval, exec.
  rewrite readStore_eq. cbn [fst snd]. rewrite bind_run. unfold eval, exec, Date_now.
  cbn [fst snd]. rewrite mark_map_eq. cbn [orb].
  destruct (existsb (pending (i :: ids)) (log w)); reflexivity.
Qed.

Lemma mark_id_of_not_pending ids now m : pending ids m = false -> mark ids now m = m.
Proof. unfold mark. now intros ->. Qed.

Lemma map_mark_id ids now ms :
  existsb (pending ids) ms = false -> map (mark ids now) ms = ms.
Proof.
  induction ms as [|m ms IH]; simpl; [reflexivity|].
  intros H. apply orb_false_elim in H as [H1 H2].
  now rewrite mark_id_of_not_pending, IH.
Qed.

Lemma pending_mark ids now m : pending ids (mark ids now m) = false.
Proof.
  unfold mark. destruct (pending ids m) eqn:E; [|exact E].
  unfold pending. cbn. now rewrite andb_false_r.
Qed.

Lemma existsb_pending_marked ids now ms :
  existsb (pending ids) (map (mark ids now) ms) = false.
Proof.
  induction ms as [|m ms IH]; simpl; [reflexivity|].
  now rewrite pending_mark, IH.
Qed.

(** The log after [markMessagesDelivered], in every case. *)
Lemma log_markMessagesDelivered ids w :
  log (exec (markMessagesDelivered ids) w) = map (mark ids (clock w (ticks w))) (log w).
Proof.
  destruct ids as [|i ids].
  - cbn. induction (log w) as [|m l IH]; simpl; [reflexivity|]. now rewrite <- IH.
  - unfold exec. rewrite markMessagesDelivered_eq by discriminate. cbn [snd].
    destruct (existsb (pending (i :: ids)) (log w)) eqn:E; [reflexivity|].
    cbn. now rewrite map_mark_id.
Qed.

Lemma log_addMessage msg w : log (exec (addMessage msg) w) = log w ++ [msg].
Proof. unfold exec. now rewrite addMessage_eq. Qed.

(** Reading the log and the directory through the setters. *)
Lemma Date_now_eq w : Date_now w = (clock w (ticks w), set_ticks (S (ticks w)) w).
Proof. reflexivity. Qed.

Lemma randomUUID_eq w : randomUUID w = (uuids w (drawn w), set_drawn (S (drawn w)) w).
Proof. reflexivity. Qed.

Lemma perform_eq e w : perform e w = (tt, set_fx (fx w ++ [e]) w).
Proof. reflexivity. Qed.

Lemma emit_eq s n w : emit s n w = (tt, set_fx (fx w ++ [Emit s n]) w).
Proof. reflexivity. Qed.

Lemma ret_eq {A} (a : A) w : ret a w = (a, w).
Proof. reflexivity. Qed.

Lemma modify_eq f w : modify f w = (tt, f w).
Proof. reflexivity. Qed.

Lemma log_ensured w : log (ensured w) = log w.
Proof. reflexivity. Qed.
Lemma directory_ensured w : directory (ensured w) = directory w.
Proof. reflexivity. Qed.
Lemma log_set_fx l w : log (set_fx l w) = log w.
Proof. reflexivity. Qed.
Lemma log_set_ticks n w : log (set_ticks n w) = log w.
Proof. reflexivity. Qed.
Lemma log_set_drawn n w : log (set_drawn n w) = log w.
Proof. reflexivity. Qed.
Lemma log_set_onlineUsers m w : log (set_onlineUsers m w) = log w.
Proof. reflexivity. Qed.
Lemma log_set_socketData m w : log (set_socketData m w) = log w.
Proof. reflexivity. Qed.
Lemma log_set_sessFile f w : log (set_sessFile f w) = log w.
Proof. reflexivity. Qed.
Lemma log_set_msgFile l w : log (set_msgFile (Some l) w) = l.
Proof. reflexivity. Qed.
Lemma directory_set_fx l w : directory (set_fx l w) = directory w.
Proof. reflexivity. Qed.
Lemma directory_set_ticks n w : directory (set_ticks n w) = directory w.
Proof. reflexivity. Qed.
Lemma directory_set_drawn n w : directory (set_drawn n w) = directory w.
Proof. reflexivity. Qed.
Lemma directory_set_onlineUsers m w : directory (set_onlineUsers m w) = directory w.
Proof. reflexivity. Qed.
Lemma directory_set_socketData m w : directory (set_socketData m w) = directory w.
Proof. reflexivity. Qed.
Lemma directory_set_msgFile f w : directory (set_msgFile f w) = directory w.
Proof. reflexivity. Qed.
Lemma directory_set_sessFile l w : directory (set_sessFile (Some l) w) = l.
Proof. reflexivity. Qed.

Create Rewrite HintDb world.
#[local] Hint Rewrite log_ensured directory_ensured log_set_fx log_set_ticks log_set_drawn
  log_set_onlineUsers log_set_socketData log_set_sessFile log_set_msgFile
  directory_set_fx directory_set_ticks directory_set_drawn directory_set_onlineUsers
  directory_set_socketData directory_set_msgFile directory_set_sessFile : world.

(** Projections of a world built with the setters. *)
Ltac wsimpl :=
  autorewrite with world;
  cbn [fst snd dataDir msgFile sessFile onlineUsers socketData clock ticks uuids drawn fx
       set_dataDir set_msgFile set_sessFile set_onlineUsers set_socketData set_ticks
       set_drawn set_fx ensured].

(** One step of a computation in [M]. *)
Ltac mstep :=
  rewrite bind_run; unfold eval, exec;
  rewrite ?Date_now_eq, ?randomUUID_eq, ?perform_eq, ?emit_eq, ?modify_eq, ?readStore_eq,
    ?readSessions_eq, ?addMessage_eq;
  cbn [fst snd].

(** ** The message log only grows *)

Lemma persists_as_refl m : persists_as m m.
Proof. unfold persists_as. tauto. Qed.

Lemma persists_as_trans m1 m2 m3 :
  persists_as m1 m2 -> persists_as m2 m3 -> persists_as m1 m3.
Proof. unfold persists_as. intuition congruence. Qed.

Lemma persists_as_mark ids now m : persists_as m (mark ids now m).
Proof.
  unfold mark. destruct (pending ids m); [|apply persists_as_refl].
  unfold persists_as, stamped. cbn. tauto.
Qed.

Lemma Forall2_persists_refl l : Forall2 persists_as l l.
Proof. induction l; constructor; auto using persists_as_refl. Qed.

Lemma Forall2_persists_trans l1 l2 l3 :
  Forall2 persists_as l1 l2 -> Forall2 persists_as l2 l3 -> Forall2 persists_as l1 l3.
Proof.
  intros H. revert l3. induction H as [|a b l1 l2 Hab _ IH]; intros l3 H23.
  - inversion H23; constructor.
  - inversion H23 as [|? c ? l3' Hbc H']; subst. constructor.
    + eapply persists_as_trans; eauto.
    + now apply IH.
Qed.

Lemma Forall2_persists_mark ids now l : Forall2 persists_as l (map (mark ids now) l).
Proof. induction l; simpl; constructor; auto using persists_as_mark. Qed.

Lemma log_grows_refl l : log_grows l l.
Proof.
  exists l, []. split; [now rewrite app_nil_r | apply Forall2_persists_refl].
Qed.

Lemma log_grows_trans l1 l2 l3 : log_grows l1 l2 -> log_grows l2 l3 -> log_grows l1 l3.
Proof.
  intros (k1 & a1 & -> & H1) (k2 & a2 & -> & H2).
  apply Forall2_app_inv_l in H2 as (k21 & k22 & Hk & Ha & ->).
  exists k21, (k22 ++ a2). split; [now rewrite app_assoc|].
  eapply Forall2_persists_trans; eauto.
Qed.

Lemma log_grows_app l added : log_grows l (l ++ added).
Proof. exists l, added. split; [reflexivity | apply Forall2_persists_refl]. Qed.

Lemma log_grows_mark ids now l : log_grows l (map (mark ids now) l).
Proof.
  exists (map (mark ids now) l), []. split; [now rewrite app_nil_r|].
  apply Forall2_persists_mark.
Qed.

Lemma log_grows_store_op op w : log_grows (log w) (log (exec (store_op op) w)).
Proof.
  destruct op as [msg|ids]; cbn [store_op].
  - rewrite log_addMessage. apply log_grows_app.
  - rewrite log_markMessagesDelivered. apply log_grows_mark.
Qed.

(** C3. Whatever sequence of [addMessage] and [markMessagesDelivered]
    calls runs on the store, every record that was in the log is still
    there afterwards, at the same place, with the same [id], [to],
    [sessionId], [timestamp], [role] and [message]; a record that was
    delivered is still delivered; records are only added at the end. *)
Theorem store_ops_log_grows (ops : list StoreOp) (w : World) :
  log_grows (log w) (log (exec (store_ops ops) w)).
Proof.
  revert w. induction ops as [|op ops IH]; intros w.
  - apply log_grows_refl.
  - cbn [store_ops]. rewrite exec_bind.
    eapply log_grows_trans; [apply log_grows_store_op | apply IH].
Qed.

Example store_ops_run :
  log (exec (store_ops [ op_markMessagesDelivered ["m1"];
                         op_addMessage (Message.mk "m3" "bob" "s9" 5 false None system
                                          (tool_use "get_weather"));
                         op_markMessagesDelivered ["m2"; "m1"] ]) two_records) =
  [ Message.mk "m1" "alice" "s1" 10 true (Some 1000) ai (text "hello");
    Message.mk "m2" "alice" "s1" 20 true (Some 21) user (text "hi");
    Message.mk "m3" "bob" "s9" 5 false None system (tool_use "get_weather") ].
Proof. reflexivity. Qed.

(** ** Marking records delivered *)

Lemma includes_In ids x : includes ids x = true <-> In x ids.
Proof.
  unfold includes. rewrite existsb_exists. split.
  - intros (y & Hy & He). apply String.eqb_eq in He. now subst.
  - intros H. exists x. split; [exact H | apply String.eqb_refl].
Qed.

Lemma includes_not_In ids x : includes ids x = false <-> ~ In x ids.
Proof.
  rewrite <- includes_In. destruct (includes ids x); split; congruence.
Qed.

Lemma pending_true ids m :
  pending ids m = true <-> In (Message.id m) ids /\ Message.delivered m = false.
Proof.
  unfold pending. rewrite andb_true_iff, includes_In, negb_true_iff. tauto.
Qed.

Lemma pending_false ids m :
  pending ids m = false <-> ~ In (Message.id m) ids \/ Message.delivered m = true.
Proof.
  unfold pending. rewrite andb_false_iff, includes_not_In, negb_false_iff. tauto.
Qed.

Lemma existsb_pending_false ids ms :
  existsb (pending ids) ms = false <->
  Forall (fun m => ~ In (Message.id m) ids \/ Message.delivered m = true) ms.
Proof.
  induction ms as [|m ms IH]; simpl.
  - split; [constructor | reflexivity].
  - rewrite orb_false_iff, IH, pending_false. split.
    + intros [H1 H2]. now constructor.
    + intros H. inversion H; subst. tauto.
Qed.

Lemma fx_markMessagesDelivered_unchanged ids w :
  existsb (pending ids) (log w) = false ->
  fx (exec (markMessagesDelivered ids) w) = fx w.
Proof.
  intros H. destruct ids as [|i ids]; [reflexivity|].
  unfold exec. rewrite markMessagesDelivered_eq by discriminate. cbn [snd].
  now rewrite H.
Qed.

Lemma msgFile_markMessagesDelivered ids w :
  ids <> [] ->
  msgFile (exec (markMessagesDelivered ids) w) =
  Some (map (mark ids (clock w (ticks w))) (log w)).
Proof.
  intros Hne. unfold exec. rewrite markMessagesDelivered_eq by exact Hne. cbn [snd].
  destruct (existsb (pending ids) (log w)) eqn:E; [reflexivity|].
  cbn. now rewrite map_mark_id.
Qed.

(** C5. [markMessagesDelivered] is idempotent on the store: a second
    call with the same ids leaves the message file as the first call left
    it and writes nothing. A record whose id is not listed, or that is
    already delivered, is unchanged; a listed record that is undelivered
    gets [delivered = true] and [deliveredAt] stamped with the time of the
    call. When no record changes, [writeStore] is not called: the log is
    as before, and so is the message file when it exists (a file that does
    not exist yet is created empty by [readStore], as by every reader).
    With an empty id list the call does nothing at all. *)
Theorem markMessagesDelivered_idempotent (ids : list string) (w : World) :
  let once := exec (markMessagesDelivered ids) w in
  let twice := exec (markMessagesDelivered ids) once in
  let now := clock w (ticks w) in
  (msgFile twice = msgFile once /\ fx twice = fx once) /\
  Forall2 (fun m m' =>
     (In (Message.id m) ids /\ Message.delivered m = false -> m' = stamped now m) /\
     (~ In (Message.id m) ids \/ Message.delivered m = true -> m' = m))
    (log w) (log once) /\
  (Forall (fun m => ~ In (Message.id m) ids \/ Message.delivered m = true) (log w) ->
   fx once = fx w /\ log once = log w /\
   (is_Some (msgFile w) -> msgFile once = msgFile w)) /\
  (ids = [] -> once = w).
Proof.
  intros once twice now. subst once twice now.
  split; [|split; [|split]].
  - destruct ids as [|i ids]; [split; reflexivity|].
    assert (Hp : existsb (pending (i :: ids))
                   (log (exec (markMessagesDelivered (i :: ids)) w)) = false).
    { rewrite log_markMessagesDelivered. apply existsb_pending_marked. }
    split.
    + rewrite (msgFile_markMessagesDelivered (i :: ids) (exec _ w)) by discriminate.
      rewrite map_mark_id by exact Hp.
      rewrite msgFile_markMessagesDelivered by discriminate.
      unfold log. now rewrite msgFile_markMessagesDelivered by discriminate.
    + now apply fx_markMessagesDelivered_unchanged.
  - rewrite log_markMessagesDelivered.
    induction (log w) as [|m l IH]; simpl; constructor; [|exact IH].
    unfold mark. split.
    + intros H. apply pending_true in H. now rewrite H.
    + intros H. apply pending_false in H. now rewrite H.
  - intros H. apply existsb_pending_false in H. split; [|split].
    + now apply fx_markMessagesDelivered_unchanged.
    + rewrite log_markMessagesDelivered. now apply map_mark_id.
    + intros [l Hl]. destruct ids as [|i ids]; [reflexivity|].
      rewrite msgFile_markMessagesDelivered by discriminate.
      rewrite map_mark_id by exact H. unfold log. now rewrite Hl.
  - intros ->. reflexivity.
Qed.

Example markMessagesDelivered_twice_run :
  let once := exec (markMessagesDelivered ["m1"; "m2"; "unknown"]) two_records in
  let twice := exec (markMessagesDelivered ["m1"; "m2"; "unknown"]) once in
  log once =
  [ Message.mk "m1" "alice" "s1" 10 true (Some 1000) ai (text "hello");
    Message.mk "m2" "alice" "s1" 20 true (Some 21) user (text "hi") ] /\
  log twice = log once /\
  fx once = [WriteStore (log once)] /\
  fx twice = fx once /\
  fx (exec (markMessagesDelivered ["m2"; "unknown"]) two_records) = [].
Proof. repeat split; reflexivity. Qed.

(** ** Sorting *)

Section SortFacts.
Context {A : Type} (cmp : A -> A -> Z).

Lemma sort_insert_perm x l : Permutation (sort_insert cmp x l) (x :: l).
Proof.
  induction l as [|y l IH]; simpl; [reflexivity|].
  destruct (cmp x y <=? 0); [reflexivity|].
  rewrite IH. apply perm_swap.
Qed.

Lemma sort_by_perm l : Permutation (sort_by cmp l) l.
Proof.
  induction l as [|x l IH]; simpl; [reflexivity|].
  rewrite sort_insert_perm. now constructor.
Qed.

Lemma sort_by_In x l : In x (sort_by cmp l) <-> In x l.
Proof.
  split; apply Permutation_in; [|symmetry]; apply sort_by_perm.
Qed.

Context (R : A -> A -> Prop).
Hypothesis R_trans : forall x y z, R x y -> R y z -> R x z.
Hypothesis cmp_le : forall x y, cmp x y <= 0 -> R x y.
Hypothesis cmp_gt : forall x y, 0 < cmp x y -> R y x.

Lemma sort_insert_sorted x l :
  StronglySorted R l -> StronglySorted R (sort_insert cmp x l).
Proof.
  induction 1 as [|y l Hs IH Hy]; simpl.
  - repeat constructor.
  - destruct (Z.leb_spec (cmp x y) 0) as [Hle|Hgt].
    + constructor; [now constructor|].
      constructor; [now apply cmp_le|].
      eapply Forall_impl; [exact Hy|]. intros z Hz.
      eapply R_trans; [apply cmp_le; exact Hle | exact Hz].
    + constructor; [exact IH|].
      apply List.Forall_forall. intros z Hz.
      apply (Permutation_in _ (sort_insert_perm x l)) in Hz.
      destruct Hz as [<-|Hz]; [now apply cmp_gt|].
      rewrite List.Forall_forall in Hy. now apply Hy.
Qed.

Lemma sort_by_sorted l : StronglySorted R (sort_by cmp l).
Proof.
  induction l as [|x l IH]; simpl; [constructor | now apply sort_insert_sorted].
Qed.
End SortFacts.

Lemma sort_by_timestamp_sorted (l : list Message) :
  StronglySorted by_timestamp
    (sort_by (fun a b => Message.timestamp a - Message.timestamp b) l).
Proof.
  apply sort_by_sorted; unfold by_timestamp; intros; lia.
Qed.

Lemma sort_by_recency_sorted (l : list SessionItem) :
  StronglySorted by_recency
    (sort_by (fun a b => SessionItem.updatedAt b - SessionItem.updatedAt a) l).
Proof.
  apply sort_by_sorted; unfold by_recency; intros; lia.
Qed.

(** Sorting and filtering two logs that differ only in delivery flags. *)
Lemma sort_insert_Forall2 {A} (R : A -> A -> Prop) (cmp : A -> A -> Z) x x' l l' :
  (forall a a' b b', R a a' -> R b b' -> cmp a' b' = cmp a b) ->
  R x x' -> Forall2 R l l' ->
  Forall2 R (sort_insert cmp x l) (sort_insert cmp x' l').
Proof.
  intros Hc Hx H. induction H as [|y y' l l' Hy Hl IH]; simpl.
  - repeat constructor. exact Hx.
  - rewrite (Hc x x' y y' Hx Hy).
    destruct (cmp x y <=? 0).
    + constructor; [exact Hx|]. constructor; assumption.
    + constructor; [exact Hy | exact IH].
Qed.

Lemma sort_by_Forall2 {A} (R : A -> A -> Prop) (cmp : A -> A -> Z) l l' :
  (forall a a' b b', R a a' -> R b b' -> cmp a' b' = cmp a b) ->
  Forall2 R l l' -> Forall2 R (sort_by cmp l) (sort_by cmp l').
Proof.
  intros Hc H. induction H; simpl; [constructor|].
  now apply sort_insert_Forall2.
Qed.

Lemma filter_Forall2 {A} (R : A -> A -> Prop) (p : A -> bool) l l' :
  (forall a a', R a a' -> p a' = p a) ->
  Forall2 R l l' -> Forall2 R (List.filter p l) (List.filter p l').
Proof.
  intros Hp H. induction H as [|y y' l l' Hy _ IH]; simpl; [constructor|].
  rewrite (Hp y y' Hy). destruct (p y); [constructor|]; auto.
Qed.

(** ** Replay on [session_open] *)

Lemma truthy_true s : truthy s = true <-> s <> "".
Proof. unfold truthy. rewrite negb_true_iff. apply String.eqb_neq. Qed.

Lemma truthy_false s : truthy s = false <-> s = "".
Proof. unfold truthy. rewrite negb_false_iff. apply String.eqb_eq. Qed.

Lemma in_session_true userId sessionId m :
  in_session userId sessionId m = true <->
  Message.to m = userId /\ Message.sessionId m = sessionId.
Proof. unfold in_session. now rewrite andb_true_iff, !String.eqb_eq. Qed.

Lemma session_open_eq w socket userId sessionId :
  socketData w !! socket = Some userId -> userId <> "" -> sessionId <> "" ->
  session_open socket sessionId w =
  (tt, set_fx (fx w ++ [Emit socket (session_messages sessionId
         (sort_by (fun a b => Message.timestamp a - Message.timestamp b)
            (List.filter (in_session userId sessionId) (log w))))])
         (ensured w)).
Proof.
  intros Hs Hu Hn. apply truthy_true in Hu, Hn.
  unfold session_open. rewrite bind_run. unfold eval, exec, socket_userId, gets.
  cbn [fst snd]. rewrite Hs, Hu, Hn. cbn [negb orb].
  rewrite bind_run. unfold eval, exec. rewrite readStore_eq. reflexivity.
Qed.

(** C4. On a connection registered for a user, [session_open] sends one
    [session_messages] notification whose messages are exactly the records
    of the log with that [to] and that [sessionId], in ascending order of
    [timestamp]. The presence map plays no part, and neither do the
    delivery flags: in any world with the same records, whatever their
    [delivered] / [deliveredAt] and whoever is online, the replay is the
    same record for record. *)
Theorem session_open_replays (w : World) (socket userId sessionId : string) :
  socketData w !! socket = Some userId -> userId <> "" -> sessionId <> "" ->
  exists msgs,
    fx (exec (session_open socket sessionId) w)
      = fx w ++ [Emit socket (session_messages sessionId msgs)] /\
    (forall m, In m msgs <->
       In m (log w) /\ Message.to m = userId /\ Message.sessionId m = sessionId) /\
    Permutation msgs (List.filter (in_session userId sessionId) (log w)) /\
    StronglySorted by_timestamp msgs /\
    (forall w2, socketData w2 !! socket = Some userId ->
       Forall2 same_record (log w) (log w2) ->
       exists msgs2,
         fx (exec (session_open socket sessionId) w2)
           = fx w2 ++ [Emit socket (session_messages sessionId msgs2)] /\
         Forall2 same_record msgs msgs2).
Proof.
  intros Hs Hu Hn. eexists. split; [|split; [|split; [|split]]].
  - unfold exec. rewrite (session_open_eq w socket userId sessionId) by assumption.
    reflexivity.
  - intros m. rewrite sort_by_In, filter_In, in_session_true. tauto.
  - apply sort_by_perm.
  - apply sort_by_timestamp_sorted.
  - intros w2 Hs2 H2. eexists. split.
    + unfold exec. rewrite (session_open_eq w2 socket userId sessionId) by assumption.
      reflexivity.
    + apply sort_by_Forall2.
      * unfold same_record. intros a a' b b' Ha Hb.
        destruct Ha as (_ & _ & _ & -> & _), Hb as (_ & _ & _ & -> & _). reflexivity.
      * apply filter_Forall2; [|exact H2].
        unfold same_record, in_session. intros a a' (_ & -> & -> & _). reflexivity.
Qed.

Lemma session_open_replays_witness :
  exists msgs,
    fx (exec (session_open "sock1" "s1") replay_world)
      = fx replay_world ++ [Emit "sock1" (session_messages "s1" msgs)] /\
    (forall m, In m msgs <->
       In m (log replay_world) /\ Message.to m = "alice" /\ Message.sessionId m = "s1") /\
    Permutation msgs (List.filter (in_session "alice" "s1") (log replay_world)) /\
    StronglySorted by_timestamp msgs /\
    (forall w2, socketData w2 !! "sock1" = Some "alice" ->
       Forall2 same_record (log replay_world) (log w2) ->
       exists msgs2,
         fx (exec (session_open "sock1" "s1") w2)
           = fx w2 ++ [Emit "sock1" (session_messages "s1" msgs2)] /\
         Forall2 same_record msgs msgs2).
Proof.
  apply (session_open_replays replay_world "sock1" "alice" "s1").
  - reflexivity.
  - discriminate.
  - discriminate.
Defined.

Example session_open_replays_run :
  emissions (fx (exec (session_open "sock1" "s1") replay_world)) =
  [("sock1", session_messages "s1"
      [ Message.mk "m1" "alice" "s1" 10 true (Some 11) user (text "hi");
        Message.mk "m3" "alice" "s1" 30 false None ai (text "hello") ])].
Proof. reflexivity. Qed.

(** ** The session directory and the handlers *)

Lemma getSessionsForUser_eq userId w :
  getSessionsForUser userId w = (listed userId (directory w), ensured w).
Proof.
  unfold getSessionsForUser. rewrite bind_run. unfold eval, exec.
  rewrite readSessions_eq. reflexivity.
Qed.

Lemma upsertSession_eq item w :
  upsertSession item w =
  (tt, set_fx (fx w ++ [WriteSessions (upserted item (directory w))])
         (set_sessFile (Some (upserted item (directory w))) (ensured w))).
Proof.
  unfold upsertSession. rewrite bind_run. unfold eval, exec.
  rewrite readSessions_eq. cbn [fst snd]. unfold upserted.
  destruct (findIndex _ (directory w)); reflexivity.
Qed.

Lemma if_online_eq userId k w :
  if_online userId k w =
  match onlineUsers w !! userId with
  | Some sid => if truthy sid then k sid w else (tt, w)
  | None => (tt, w)
  end.
Proof.
  unfold if_online. rewrite bind_run. unfold eval, exec, gets. cbn [fst snd].
  destruct (onlineUsers w !! userId) as [sid|]; [|reflexivity].
  destruct (truthy sid); reflexivity.
Qed.

Lemma register_eq socket userId w :
  userId <> "" ->
  register socket userId w =
  (tt, set_fx (fx w ++ [Emit socket (session_list (listed userId (directory w)))])
         (ensured (set_onlineUsers (<[userId := socket]> (onlineUsers w))
                     (set_socketData (<[socket := userId]> (socketData w)) w)))).
Proof.
  intros Hu. apply truthy_true in Hu. unfold register. rewrite Hu. cbn [negb].
  rewrite !bind_run. unfold eval, exec. cbn [modify fst snd].
  rewrite getSessionsForUser_eq. reflexivity.
Qed.

Lemma register_empty socket w : register socket "" w = (tt, w).
Proof. reflexivity. Qed.

(** C9, as the code has it. A [register] intent with a non-empty user id
    sets the identity of the connection to that user id, whatever identity
    the connection had before: the last registration wins. The presence
    map then sends that user to this connection and keeps every other
    entry, the one of the connection's earlier identity included. A
    [register] with an empty user id changes nothing. *)
Theorem register_last_wins (w : World) (socket userId : string) :
  userId <> "" ->
  let w' := exec (register socket userId) w in
  socketData w' !! socket = Some userId /\
  onlineUsers w' !! userId = Some socket /\
  (forall other, other <> userId -> onlineUsers w' !! other = onlineUsers w !! other) /\
  (forall s, s <> socket -> socketData w' !! s = socketData w !! s) /\
  exec (register socket "") w = w.
Proof.
  intros Hu w'. subst w'. unfold exec. rewrite register_eq by exact Hu. cbn.
  split; [apply lookup_insert_eq|].
  split; [apply lookup_insert_eq|].
  split; [intros other Ho; now apply lookup_insert_ne|].
  split; [intros s Hs; now apply lookup_insert_ne|].
  reflexivity.
Qed.

Lemma register_last_wins_witness :
  let w' := exec (register "sock1" "bob") alice_online in
  socketData w' !! "sock1" = Some "bob" /\
  onlineUsers w' !! "bob" = Some "sock1" /\
  (forall other, other <> "bob" -> onlineUsers w' !! other = onlineUsers alice_online !! other) /\
  (forall s, s <> "sock1" -> socketData w' !! s = socketData alice_online !! s) /\
  exec (register "sock1" "") alice_online = alice_online.
Proof.
  apply (register_last_wins alice_online "sock1" "bob"). discriminate.
Defined.

(** C9, as the specification words it, fails: a second [register] on a
    connection registered as alice, now for bob, changes the identity of
    the connection. *)
Lemma register_twice_changes_identity :
  ~ (socketData (exec (register "sock1" "bob") alice_online) !! "sock1"
     = socketData alice_online !! "sock1").
Proof. vm_compute. discriminate. Qed.

Example register_twice_run :
  socketData alice_online !! "sock1" = Some "alice" /\
  socketData (exec (register "sock1" "bob") alice_online) !! "sock1" = Some "bob" /\
  onlineUsers (exec (register "sock1" "bob") alice_online) !! "alice" = Some "sock1".
Proof. vm_compute. repeat split. Qed.

Lemma session_create_eq w socket userId sessionId title :
  socketData w !! socket = Some userId -> userId <> "" -> sessionId <> "" ->
  session_create socket sessionId title w =
  (tt, let item := created_item sessionId userId title
                     (session_with sessionId (listed userId (directory w)))
                     (clock w (ticks w)) in
       let data := upserted item (directory w) in
       set_fx (fx w ++ [WriteSessions data; Emit socket (session_list (listed userId data))])
         (set_sessFile (Some data) (set_ticks (S (ticks w)) (ensured w)))).
Proof.
  intros Hs Hu Hn. apply truthy_true in Hu, Hn.
  unfold session_create. rewrite bind_run. unfold eval, exec, socket_userId, gets.
  cbn [fst snd]. rewrite Hs, Hu, Hn. cbn [negb orb].
  rewrite bind_run. unfold eval, exec. unfold Date_now at 1 2. cbn [fst snd].
  rewrite bind_run. unfold eval, exec. rewrite getSessionsForUser_eq. cbn [fst snd].
  rewrite bind_run. unfold eval, exec. rewrite upsertSession_eq. cbn [fst snd].
  rewrite bind_run. unfold eval, exec. rewrite getSessionsForUser_eq. cbn [fst snd].
  unfold emit, perform, modify, created_item, session_with. cbn.
  rewrite <- app_assoc. reflexivity.
Qed.

Lemma findIndex_by_id (l : list SessionItem) e sessionId :
  NoDup (map SessionItem.id l) -> In e l -> SessionItem.id e = sessionId ->
  exists idx,
    findIndex (fun s => String.eqb (SessionItem.id s) sessionId) l = Some idx /\
    l !! idx = Some e.
Proof.
  induction l as [|x l IH]; intros Hnd Hin He; [destruct Hin|].
  cbn [map] in Hnd. apply NoDup_cons in Hnd as [Hx Hnd]. cbn [findIndex].
  destruct (String.eqb_spec (SessionItem.id x) sessionId) as [Heq|Hneq].
  - exists O. split; [reflexivity|]. destruct Hin as [->|Hin]; [reflexivity|].
    exfalso. apply Hx. rewrite Heq, <- He. apply list_elem_of_In. now apply in_map.
  - destruct Hin as [->|Hin]; [contradiction|].
    destruct (IH Hnd Hin He) as (idx & Hf & Hl).
    exists (S idx). now rewrite Hf.
Qed.

Lemma findIndex_None {A} (p : A -> bool) l :
  findIndex p l = None <-> forall x, In x l -> p x = false.
Proof.
  induction l as [|x l IH]; cbn [findIndex].
  - split; [intros _ x [] | reflexivity].
  - destruct (p x) eqn:E.
    + split; [discriminate|]. intros H. rewrite (H x) in E; [discriminate | now left].
    + destruct (findIndex p l) eqn:F; cbn.
      * split; [discriminate|]. intros H.
        assert (Some n = None) by (apply IH; intros y Hy; apply H; now right).
        discriminate.
      * split; [|reflexivity]. intros _ y [<-|Hy]; [exact E|].
        now apply (proj1 IH).
Qed.

Lemma NoDup_id_unique (l : list SessionItem) a b :
  NoDup (map SessionItem.id l) -> In a l -> In b l ->
  SessionItem.id a = SessionItem.id b -> a = b.
Proof.
  induction l as [|x l IH]; intros Hnd Ha Hb Hid; [destruct Ha|].
  cbn [map] in Hnd. apply NoDup_cons in Hnd as [Hx Hnd].
  destruct Ha as [->|Ha], Hb as [->|Hb]; auto.
  - exfalso. apply Hx. rewrite Hid. apply list_elem_of_In. now apply in_map.
  - exfalso. apply Hx. rewrite <- Hid. apply list_elem_of_In. now apply in_map.
Qed.

Lemma In_listed userId data e :
  In e (listed userId data) <-> In e data /\ SessionItem.userId e = userId.
Proof. unfold listed. now rewrite sort_by_In, filter_In, String.eqb_eq. Qed.

Lemma session_with_Some sessionId userId data e :
  session_with sessionId (listed userId data) = Some e ->
  In e data /\ SessionItem.id e = sessionId /\ SessionItem.userId e = userId.
Proof.
  unfold session_with. intros H. apply find_some in H as [Hin He].
  apply In_listed in Hin as [Hin Hu]. apply String.eqb_eq in He. tauto.
Qed.

Lemma session_with_None sessionId userId data :
  session_with sessionId (listed userId data) = None <->
  forall e, In e data -> SessionItem.userId e = userId -> SessionItem.id e <> sessionId.
Proof.
  unfold session_with. split.
  - intros H e Hin Hu. apply String.eqb_neq.
    apply (find_none _ _ H). apply In_listed. tauto.
  - intros H. destruct (List.find _ _) as [e|] eqn:F; [|reflexivity].
    apply find_some in F as [Hin He]. apply In_listed in Hin as [Hin Hu].
    apply String.eqb_eq in He. now destruct (H e Hin Hu).
Qed.

(** The ids of the directory stay distinct under [upsertSession]. *)
Lemma upserted_NoDup item data :
  NoDup (map SessionItem.id data) -> NoDup (map SessionItem.id (upserted item data)).
Proof.
  unfold upserted. intros Hnd.
  destruct (findIndex _ data) as [idx|] eqn:F.
  - enough (map SessionItem.id (<[idx:=item]> data) = map SessionItem.id data) as -> by exact Hnd.
    revert idx F. clear Hnd. induction data as [|x l IH]; intros idx F; [discriminate|].
    cbn [findIndex] in F.
    destruct (String.eqb_spec (SessionItem.id x) (SessionItem.id item)) as [Heq|Hneq].
    + injection F as <-. cbn. now rewrite Heq.
    + destruct (findIndex _ l) as [j|] eqn:G; [|discriminate].
      injection F as <-. cbn. f_equal. now apply IH.
  - rewrite map_app. cbn. apply NoDup_app. split; [exact Hnd|].
    split; [|apply NoDup_singleton].
    intros i Hi Hi'. apply list_elem_of_In in Hi. apply in_map_iff in Hi as (x & <- & Hx).
    apply list_elem_of_In in Hi'. destruct Hi' as [Hi'|[]].
    rewrite findIndex_None in F. specialize (F x Hx). cbn in F.
    apply String.eqb_neq in F. congruence.
Qed.

Lemma upsertSession_keeps_ids_distinct item w :
  NoDup (map SessionItem.id (directory w)) ->
  NoDup (map SessionItem.id (directory (exec (upsertSession item) w))).
Proof.
  intros H. unfold exec. rewrite upsertSession_eq. cbn [snd]. wsimpl.
  now apply upserted_NoDup.
Qed.

(** C10. [session_create] on a registered connection upserts one item
    with the given session id, the connection's user and [updatedAt] set
    to the time of the call. When the directory (with distinct ids, as
    [upsertSession] keeps them) already has that session for that user,
    the item takes the place of the existing one and carries its
    [createdAt]: only [title] and [updatedAt] can differ. When the user
    has no session of that id, [createdAt] is the time of the call. *)
Theorem session_create_preserves_createdAt
  (w : World) (socket userId sessionId : string) (title : option string) :
  socketData w !! socket = Some userId -> userId <> "" -> sessionId <> "" ->
  let now := clock w (ticks w) in
  let w' := exec (session_create socket sessionId title) w in
  exists item,
    directory w' = upserted item (directory w) /\
    SessionItem.id item = sessionId /\
    SessionItem.userId item = userId /\
    SessionItem.updatedAt item = now /\
    (forall e, In e (directory w) ->
       SessionItem.id e = sessionId -> SessionItem.userId e = userId ->
       NoDup (map SessionItem.id (directory w)) ->
       SessionItem.createdAt item = SessionItem.createdAt e /\
       exists idx, directory w !! idx = Some e /\
                   directory w' = <[idx := item]> (directory w)) /\
    ((forall e, In e (directory w) ->
        SessionItem.userId e = userId -> SessionItem.id e <> sessionId) ->
     SessionItem.createdAt item = now).
Proof.
  intros Hs Hu Hn now w'. subst now w'. unfold exec.
  rewrite (session_create_eq w socket userId sessionId title) by assumption.
  cbn [snd]. eexists. split; [reflexivity|].
  split; [reflexivity|]. split; [reflexivity|]. split; [reflexivity|]. split.
  - intros e Hin Hid Hue Hnd.
    destruct (session_with sessionId (listed userId (directory w))) as [e'|] eqn:F.
    + apply session_with_Some in F as (Hin' & Hid' & Hu').
      assert (e' = e) as -> by (apply (NoDup_id_unique (directory w)); congruence).
      split; [reflexivity|].
      destruct (findIndex_by_id (directory w) e sessionId Hnd Hin Hid) as (idx & Hf & Hl).
      exists idx. split; [exact Hl|].
      cbn. unfold upserted. cbn [created_item SessionItem.id]. now rewrite Hf.
    + rewrite session_with_None in F. now destruct (F e Hin Hue).
  - intros H. apply session_with_None in H. now rewrite H.
Qed.

Lemma session_create_preserves_createdAt_witness :
  let now := clock alice_in_s1 (ticks alice_in_s1) in
  let w' := exec (session_create "sock1" "s1" (Some "Trip")) alice_in_s1 in
  exists item,
    directory w' = upserted item (directory alice_in_s1) /\
    SessionItem.id item = "s1" /\
    SessionItem.userId item = "alice" /\
    SessionItem.updatedAt item = now /\
    (forall e, In e (directory alice_in_s1) ->
       SessionItem.id e = "s1" -> SessionItem.userId e = "alice" ->
       NoDup (map SessionItem.id (directory alice_in_s1)) ->
       SessionItem.createdAt item = SessionItem.createdAt e /\
       exists idx, directory alice_in_s1 !! idx = Some e /\
                   directory w' = <[idx := item]> (directory alice_in_s1)) /\
    ((forall e, In e (directory alice_in_s1) ->
        SessionItem.userId e = "alice" -> SessionItem.id e <> "s1") ->
     SessionItem.createdAt item = now).
Proof.
  apply (session_create_preserves_createdAt alice_in_s1 "sock1" "alice" "s1" (Some "Trip")).
  - reflexivity.
  - discriminate.
  - discriminate.
Defined.

Example session_create_twice_run :
  directory alice_in_s1 = [SessionItem.mk "s1" "alice" default_title 1000 1000] /\
  directory (exec (session_create "sock1" "s1" (Some "Trip")) alice_in_s1)
  = [SessionItem.mk "s1" "alice" "Trip" 1000 1001] /\
  directory (exec (session_create "sock1" "s1" (Some "  ")) alice_in_s1)
  = [SessionItem.mk "s1" "alice" default_title 1000 1001].
Proof. repeat split. Qed.

(** ** Sending a message: [ai_send] *)

Lemma stream_start_eq userId sessionId input w :
  stream_start userId sessionId input w =
  (mkStream (uuids w (drawn w)) "" false,
   set_fx (fx w ++ started_fx w userId (uuids w (drawn w)) sessionId ++ [StreamText input])
     (set_drawn (S (drawn w)) w)).
Proof.
  unfold stream_start. mstep. mstep. rewrite if_online_eq. unfold started_fx.
  cbn [onlineUsers set_drawn].
  destruct (onlineUsers w !! userId) as [sid|]; [destruct (truthy sid)|]; cbn;
    rewrite <- ?app_assoc; reflexivity.
Qed.

Lemma ai_send_eq w socket from sessionId txt :
  socketData w !! socket = Some from -> from <> "" -> sessionId <> "" -> txt <> "" ->
  ai_send socket sessionId txt w =
  (Some (mkStream (uuids w (S (drawn w))) "" false),
   let userMsg := Message.mk (uuids w (drawn w)) from sessionId (clock w (ticks w))
                    true (Some (clock w (S (ticks w)))) user (text txt) in
   let base := set_drawn (S (S (drawn w)))
                 (set_msgFile (Some (log w ++ [userMsg])) (ensured w)) in
   let fx1 := (fx w ++ [WriteStore (log w ++ [userMsg])])
              ++ started_fx w from (uuids w (S (drawn w))) sessionId ++ [StreamText txt] in
   match session_with sessionId (listed from (directory w)) with
   | Some target =>
       let data := upserted (bumped target (clock w (S (S (ticks w))))) (directory w) in
       set_fx (fx1 ++ [WriteSessions data])
         (set_sessFile (Some data) (set_ticks (S (S (S (ticks w)))) base))
   | None => set_fx fx1 (set_ticks (S (S (ticks w))) base)
   end).
Proof.
  intros Hs Hu Hn Ht. apply truthy_true in Hu, Hn, Ht.
  unfold ai_send. rewrite bind_run. unfold eval, exec, socket_userId, gets.
  cbn [fst snd]. rewrite Hs, Hu, Hn, Ht. cbn [negb orb].
  do 5 mstep. rewrite stream_start_eq. cbn [fst snd].
  mstep. rewrite getSessionsForUser_eq. cbn [fst snd]. wsimpl.
  unfold session_with.
  destruct (List.find _ (listed from (directory w))) as [target|].
  - do 2 mstep. rewrite upsertSession_eq. cbn [fst snd]. rewrite ret_eq. wsimpl.
    reflexivity.
  - rewrite ret_eq. reflexivity.
Qed.

(** C7, as the code has it. A valid [ai_send] first persists the user's
    message (role [user], [delivered = true], [deliveredAt] stamped), then
    starts the orchestrator, which runs up to its first suspension (it
    draws the artifact id, emits [ai_started] when the user is online and
    calls the engine), and only then bumps [updatedAt] of the session, and
    only when the user already has that session. The handler returns with
    the stream just started: it waits for no engine event. *)
Theorem ai_send_persists_invokes_bumps
  (w : World) (socket from sessionId txt : string) :
  socketData w !! socket = Some from -> from <> "" -> sessionId <> "" -> txt <> "" ->
  let userMsg := Message.mk (uuids w (drawn w)) from sessionId (clock w (ticks w))
                   true (Some (clock w (S (ticks w)))) user (text txt) in
  let artifact := uuids w (S (drawn w)) in
  let bump :=
    match session_with sessionId (listed from (directory w)) with
    | Some target =>
        [WriteSessions (upserted (bumped target (clock w (S (S (ticks w))))) (directory w))]
    | None => []
    end in
  let w' := exec (ai_send socket sessionId txt) w in
  fx w' = fx w ++ [WriteStore (log w ++ [userMsg])]
               ++ started_fx w from artifact sessionId
               ++ [StreamText txt] ++ bump /\
  log w' = log w ++ [userMsg] /\
  eval (ai_send socket sessionId txt) w = Some (mkStream artifact "" false).
Proof.
  intros Hs Hu Hn Ht userMsg artifact bump w'. subst userMsg artifact bump w'.
  unfold exec, eval. rewrite (ai_send_eq w socket from sessionId txt) by assumption.
  cbn [fst snd].
  destruct (session_with sessionId (listed from (directory w))) as [target|]; wsimpl.
  - split; [|split; reflexivity].
    now rewrite <- !app_assoc.
  - split; [|split; reflexivity].
    now rewrite <- !app_assoc, app_nil_r.
Qed.

Lemma ai_send_persists_invokes_bumps_witness :
  let w := alice_in_s1 in
  let userMsg := Message.mk (uuids w (drawn w)) "alice" "s1" (clock w (ticks w))
                   true (Some (clock w (S (ticks w)))) user (text "hi") in
  let artifact := uuids w (S (drawn w)) in
  let bump :=
    match session_with "s1" (listed "alice" (directory w)) with
    | Some target =>
        [WriteSessions (upserted (bumped target (clock w (S (S (ticks w))))) (directory w))]
    | None => []
    end in
  let w' := exec (ai_send "sock1" "s1" "hi") w in
  fx w' = fx w ++ [WriteStore (log w ++ [userMsg])]
               ++ started_fx w "alice" artifact "s1"
               ++ [StreamText "hi"] ++ bump /\
  log w' = log w ++ [userMsg] /\
  eval (ai_send "sock1" "s1" "hi") w = Some (mkStream artifact "" false).
Proof.
  apply (ai_send_persists_invokes_bumps alice_in_s1 "sock1" "alice" "s1" "hi").
  - reflexivity.
  - discriminate.
  - discriminate.
  - discriminate.
Defined.

Example ai_send_run :
  effects_of (ai_send "sock1" "s1" "hi") alice_in_s1 =
  [ WriteStore [Message.mk "a-uuid" "alice" "s1" 1001 true (Some 1002) user (text "hi")];
    Emit "sock1" (ai_started "b-uuid" "s1");
    StreamText "hi";
    WriteSessions [SessionItem.mk "s1" "alice" default_title 1000 1003] ].
Proof. reflexivity. Qed.

(** C7, as the specification words it, fails: with alice online in her
    session "s1", the orchestrator is invoked before the session is
    bumped, not after. *)
Lemma ai_send_invokes_before_bump :
  ~ bump_before_invoke (effects_of (ai_send "sock1" "s1" "hi") alice_in_s1).
Proof.
  rewrite ai_send_run. intros (i & j & data & input & Hlt & Hi & Hj).
  destruct i as [|[|[|[|i]]]]; cbn in Hi; try discriminate.
  destruct j as [|[|[|[|j]]]]; cbn in Hj; try discriminate. lia.
Qed.

(** ** Sending into a session that does not exist *)

Lemma ai_send_invalid w socket from sessionId txt :
  socketData w !! socket = Some from ->
  truthy from && truthy txt && truthy sessionId = false ->
  ai_send socket sessionId txt w = (None, w).
Proof.
  intros Hs Hv. unfold ai_send. rewrite bind_run. unfold eval, exec, socket_userId, gets.
  cbn [fst snd]. rewrite Hs.
  destruct (truthy from), (truthy txt), (truthy sessionId); try discriminate; reflexivity.
Qed.

(** C8, as the code has it. [ai_send] bumps a session only when the
    user already has it: a send against a session id the user does not
    have leaves the session directory as it was, so the listing of that
    user still has no item of that id. *)
Theorem ai_send_unseen_session_untouched
  (w : World) (socket userId sessionId txt : string) :
  socketData w !! socket = Some userId ->
  session_with sessionId (eval (getSessionsForUser userId) w) = None ->
  let w' := exec (ai_send socket sessionId txt) w in
  directory w' = directory w /\
  session_with sessionId (eval (getSessionsForUser userId) w') = None.
Proof.
  intros Hs Hnone w'. subst w'. unfold eval in *. rewrite getSessionsForUser_eq in *.
  cbn [fst] in *.
  enough (directory (exec (ai_send socket sessionId txt) w) = directory w) as ->
      by (split; [reflexivity | exact Hnone]).
  unfold exec.
  destruct (truthy userId && truthy txt && truthy sessionId) eqn:Hv.
  - apply andb_true_iff in Hv as [Hv H3]. apply andb_true_iff in Hv as [H1 H2].
    apply truthy_true in H1, H2, H3.
    rewrite (ai_send_eq w socket userId sessionId txt) by assumption.
    cbn [snd]. rewrite Hnone. now wsimpl.
  - now rewrite (ai_send_invalid w socket userId sessionId txt).
Qed.

Lemma ai_send_unseen_session_untouched_witness :
  let w' := exec (ai_send "sock1" "s1" "hi") alice_online in
  directory w' = directory alice_online /\
  session_with "s1" (eval (getSessionsForUser "alice") w') = None.
Proof.
  apply (ai_send_unseen_session_untouched alice_online "sock1" "alice" "s1" "hi").
  - reflexivity.
  - reflexivity.
Defined.

(** C8, as the specification words it, fails: alice, connected and with
    no session, sends into "s1"; afterwards her listing has no item of
    that id. *)
Lemma ai_send_unseen_session_not_listed :
  ~ (exists item,
       In item (eval (getSessionsForUser "alice")
                  (exec (ai_send "sock1" "s1" "hi") alice_online)) /\
       SessionItem.id item = "s1").
Proof. intros (item & Hin & _). vm_compute in Hin. exact Hin. Qed.

(** ** The orchestrator *)

Lemma append_empty_r (s : string) : s +:+ "" = s.
Proof. induction s as [|c s IH]; [reflexivity|]. change (String c (s +:+ "") = String c s). now rewrite IH. Qed.

Lemma append_assoc (a b c : string) : (a +:+ b) +:+ c = a +:+ (b +:+ c).
Proof.
  induction a as [|x a IH]; [reflexivity|].
  change (String x ((a +:+ b) +:+ c) = String x (a +:+ (b +:+ c))). now rewrite IH.
Qed.

Lemma or_else_empty (s : string) : or_else s "" = s.
Proof.
  unfold or_else. destruct (truthy s) eqn:E; [reflexivity|].
  apply truthy_false in E. now subst.
Qed.

Lemma persists_as_kind m m' : persists_as m m' -> kind m' = kind m.
Proof. unfold persists_as, kind. intros (_ & _ & _ & _ & -> & -> & _). reflexivity. Qed.

Lemma Forall2_persists_kind l l' : Forall2 persists_as l l' -> map kind l' = map kind l.
Proof.
  induction 1 as [|m m' l l' H _ IH]; cbn; [reflexivity|].
  now rewrite (persists_as_kind m m' H), IH.
Qed.

Lemma run_appends_refl l : run_appends l l [].
Proof.
  exists l, []. split; [now rewrite app_nil_r|].
  split; [apply Forall2_persists_refl | reflexivity].
Qed.

Lemma run_appends_trans l1 l2 l3 k1 k2 :
  run_appends l1 l2 k1 -> run_appends l2 l3 k2 -> run_appends l1 l3 (k1 ++ k2).
Proof.
  intros (kept1 & a1 & -> & H1 & <-) (kept2 & a2 & -> & H2 & <-).
  apply Forall2_app_inv_l in H2 as (k21 & k22 & Hk & Ha & ->).
  exists k21, (k22 ++ a2). split; [now rewrite app_assoc|]. split.
  - eapply Forall2_persists_trans; eauto.
  - rewrite map_app. now rewrite (Forall2_persists_kind _ _ Ha).
Qed.

Lemma run_appends_add l m : run_appends l (l ++ [m]) [kind m].
Proof.
  exists l, [m]. split; [reflexivity|].
  split; [apply Forall2_persists_refl | reflexivity].
Qed.

Lemma run_appends_mark ids now l : run_appends l (map (mark ids now) l) [].
Proof.
  exists (map (mark ids now) l), []. split; [now rewrite app_nil_r|].
  split; [apply Forall2_persists_mark | reflexivity].
Qed.

Lemma fx_markMessagesDelivered ids w :
  exists new, fx (exec (markMessagesDelivered ids) w) = fx w ++ new /\
              forallb progress_effect new = true /\ emissions new = [].
Proof.
  destruct ids as [|i ids].
  - exists []. cbn. now rewrite app_nil_r.
  - unfold exec. rewrite markMessagesDelivered_eq by discriminate. cbn [snd].
    destruct (existsb _ (log w)).
    + eexists [_]. cbn. repeat split.
    + exists []. cbn. now rewrite app_nil_r.
Qed.

Lemma emissions_app l1 l2 : emissions (l1 ++ l2) = emissions l1 ++ emissions l2.
Proof. unfold emissions. apply omap_app. Qed.

(** What [if_online] does with the continuation of the tool events and of
    the final step: emit a notification, then mark a record delivered. *)
Lemma if_online_notify_offline userId n ids w :
  onlineUsers w !! userId = None \/ onlineUsers w !! userId = Some "" ->
  if_online userId (fun sid => emit sid n;; markMessagesDelivered ids) w = (tt, w).
Proof.
  intros H. rewrite if_online_eq. destruct H as [-> | ->]; reflexivity.
Qed.

Lemma if_online_notify_online userId n ids w sid :
  onlineUsers w !! userId = Some sid -> sid <> "" ->
  if_online userId (fun sid => emit sid n;; markMessagesDelivered ids) w =
  markMessagesDelivered ids (set_fx (fx w ++ [Emit sid n]) w).
Proof.
  intros H Hs. apply truthy_true in Hs. rewrite if_online_eq, H, Hs.
  now mstep.
Qed.

Lemma persist_then_notify_offline userId msg n w :
  onlineUsers w !! userId = None \/ onlineUsers w !! userId = Some "" ->
  let w' := exec (persist_then_notify userId msg n) w in
  log w' = log w ++ [msg] /\
  fx w' = fx w ++ [WriteStore (log w ++ [msg])] /\
  onlineUsers w' = onlineUsers w.
Proof.
  intros H w'. subst w'. unfold persist_then_notify, exec. mstep.
  rewrite if_online_notify_offline by exact H. now wsimpl.
Qed.

Lemma persist_then_notify_online userId msg n w sid :
  onlineUsers w !! userId = Some sid -> sid <> "" ->
  let w' := exec (persist_then_notify userId msg n) w in
  log w' = map (mark [Message.id msg] (clock w (ticks w))) (log w ++ [msg]) /\
  (exists new,
     fx w' = fx w ++ [WriteStore (log w ++ [msg]); Emit sid n] ++ new /\
     forallb progress_effect new = true /\ emissions new = []) /\
  onlineUsers w' = onlineUsers w.
Proof.
  intros H Hs w'. subst w'. unfold persist_then_notify, exec. mstep.
  rewrite (if_online_notify_online userId n _ _ sid) by (wsimpl; assumption).
  set (w1 := set_fx _ _).
  change (markMessagesDelivered [Message.id msg] w1).2
    with (exec (markMessagesDelivered [Message.id msg]) w1).
  split; [|split].
  - rewrite log_markMessagesDelivered. subst w1. now wsimpl.
  - destruct (fx_markMessagesDelivered [Message.id msg] w1) as (new & Hfx & Hp & He).
    exists new. rewrite Hfx. subst w1. wsimpl. split; [|tauto].
    now rewrite <- !app_assoc.
  - unfold exec. rewrite markMessagesDelivered_eq by discriminate. cbn [snd].
    subst w1. destruct (existsb _ _); reflexivity.
Qed.

Lemma persist_then_notify_cases userId w :
  (onlineUsers w !! userId = None \/ onlineUsers w !! userId = Some "") \/
  (exists sid, onlineUsers w !! userId = Some sid /\ sid <> "").
Proof.
  destruct (onlineUsers w !! userId) as [sid|]; [|now left; left].
  destruct (String.eqb_spec sid ""); [subst; now left; right | right; eauto].
Qed.

Lemma persist_then_notify_log userId msg n w :
  run_appends (log w) (log (exec (persist_then_notify userId msg n) w)) [kind msg].
Proof.
  destruct (persist_then_notify_cases userId w) as [H | (sid & H & Hs)].
  - destruct (persist_then_notify_offline userId msg n w H) as (-> & _).
    apply run_appends_add.
  - destruct (persist_then_notify_online userId msg n w sid H Hs) as (-> & _).
    change [kind msg] with ([kind msg] ++ []).
    eapply run_appends_trans; [apply run_appends_add | apply run_appends_mark].
Qed.

Lemma persist_then_notify_log_from userId msg n w w0 kinds :
  log w0 = log w -> kinds = [kind msg] ->
  run_appends (log w) (log (exec (persist_then_notify userId msg n) w0)) kinds.
Proof. intros <- ->. apply persist_then_notify_log. Qed.

Lemma persist_then_notify_fx userId msg n w :
  (forall sid, progress_effect (Emit sid n) = true) ->
  exists new, fx (exec (persist_then_notify userId msg n) w) = fx w ++ new /\
              forallb progress_effect new = true.
Proof.
  intros Hn. destruct (persist_then_notify_cases userId w) as [H | (sid & H & Hs)].
  - destruct (persist_then_notify_offline userId msg n w H) as (_ & -> & _).
    eexists. split; reflexivity.
  - destruct (persist_then_notify_online userId msg n w sid H Hs)
      as (_ & (new & -> & Hp & _) & _).
    eexists. split; [reflexivity|]. cbn [app forallb].
    now rewrite Hn, Hp.
Qed.

Lemma persist_then_notify_registry userId msg n w :
  onlineUsers (exec (persist_then_notify userId msg n) w) = onlineUsers w.
Proof.
  destruct (persist_then_notify_cases userId w) as [H | (sid & H & Hs)].
  - now destruct (persist_then_notify_offline userId msg n w H) as (_ & _ & ->).
  - now destruct (persist_then_notify_online userId msg n w sid H Hs) as (_ & _ & ->).
Qed.

(** The loop body, event by event. *)
Lemma stream_event_tool_call userId sessionId st toolName w :
  stream_event userId sessionId st (tool_call toolName) w =
  (st, exec (persist_then_notify userId
               (Message.mk (uuids w (drawn w)) userId sessionId (clock w (ticks w))
                  false None system (tool_use toolName))
               (ai_tool_call sessionId toolName))
         (set_ticks (S (ticks w)) (set_drawn (S (drawn w)) w))).
Proof.
  cbn [stream_event]. do 2 mstep. wsimpl.
  unfold persist_then_notify, exec. rewrite !bind_run. unfold eval, exec.
  cbn [fst snd Message.id]. now rewrite ret_eq.
Qed.

Lemma stream_event_tool_result userId sessionId st toolName w :
  stream_event userId sessionId st (tool_result_event toolName) w =
  (st, exec (persist_then_notify userId
               (Message.mk (uuids w (drawn w)) userId sessionId (clock w (ticks w))
                  false None system (tool_result toolName))
               (ai_tool_result sessionId toolName))
         (set_ticks (S (ticks w)) (set_drawn (S (drawn w)) w))).
Proof.
  cbn [stream_event]. do 2 mstep. wsimpl.
  unfold persist_then_notify, exec. rewrite !bind_run. unfold eval, exec.
  cbn [fst snd Message.id]. now rewrite ret_eq.
Qed.

Lemma stream_event_text_delta userId sessionId st t w :
  done st = false ->
  stream_event userId sessionId st (text_delta t) w =
  (mkStream (messageId st) (textSoFar st +:+ default "" t) false,
   match onlineUsers w !! userId with
   | Some sid =>
       if truthy (default "" t) && truthy sid
       then set_fx (fx w ++ [Emit sid (ai_chunk (messageId st) sessionId (default "" t))]) w
       else w
   | None => w
   end).
Proof.
  intros Hd. cbn [stream_event]. rewrite Hd. cbn [negb andb].
  destruct (truthy (default "" t)) eqn:E.
  - mstep. rewrite if_online_eq, ret_eq.
    destruct (onlineUsers w !! userId) as [sid|]; [|reflexivity].
    cbn [andb]. destruct (truthy sid); reflexivity.
  - apply truthy_false in E. rewrite E, append_empty_r, ret_eq.
    destruct st as [i ts d]. cbn in *. subst d.
    destruct (onlineUsers w !! userId); reflexivity.
Qed.

Lemma stream_finalize_eq userId sessionId st finalText w :
  stream_finalize userId sessionId st finalText w =
  (mkStream (messageId st) (or_else finalText (textSoFar st)) true,
   exec (persist_then_notify userId
           (Message.mk (messageId st) userId sessionId (clock w (ticks w))
              false None ai (text (or_else finalText (textSoFar st))))
           (ai_complete (messageId st) sessionId (or_else finalText (textSoFar st))))
     (set_ticks (S (ticks w)) w)).
Proof.
  unfold stream_finalize. cbn [messageId textSoFar]. rewrite or_else_empty.
  mstep. unfold persist_then_notify, exec. rewrite !bind_run. unfold eval, exec.
  cbn [fst snd Message.id]. now rewrite ret_eq.
Qed.

Lemma stream_event_spec userId sessionId st event w :
  done st = false ->
  let st' := eval (stream_event userId sessionId st event) w in
  let w' := exec (stream_event userId sessionId st event) w in
  (messageId st' = messageId st /\ done st' = false /\
   textSoFar st' = textSoFar st +:+ delta_of event) /\
  run_appends (log w) (log w') (record_of event) /\
  (exists new, fx w' = fx w ++ new /\ forallb progress_effect new = true).
Proof.
  intros Hd st' w'. subst st' w'. unfold eval, exec.
  destruct event as [t|toolName|toolName| |ty].
  - rewrite stream_event_text_delta by exact Hd. cbn [fst snd messageId done textSoFar delta_of].
    split; [auto|]. cbn [record_of].
    destruct (onlineUsers w !! userId) as [sid|];
      [destruct (truthy (default "" t) && truthy sid)|]; wsimpl;
      (split; [apply run_appends_refl|]).
    + eexists. split; reflexivity.
    + exists []. now rewrite app_nil_r.
    + exists []. now rewrite app_nil_r.
  - rewrite stream_event_tool_call. cbn [fst snd delta_of record_of].
    rewrite append_empty_r. split; [auto|]. split.
    + apply persist_then_notify_log_from; reflexivity.
    + apply (persist_then_notify_fx userId _ _ (set_ticks _ (set_drawn _ w))). reflexivity.
  - rewrite stream_event_tool_result. cbn [fst snd delta_of record_of].
    rewrite append_empty_r. split; [auto|]. split.
    + apply persist_then_notify_log_from; reflexivity.
    + apply (persist_then_notify_fx userId _ _ (set_ticks _ (set_drawn _ w))). reflexivity.
  - cbn. rewrite append_empty_r. split; [auto|].
    split; [apply run_appends_refl|]. exists []. now rewrite app_nil_r.
  - cbn. rewrite append_empty_r. split; [auto|].
    split; [apply run_appends_refl|]. exists []. now rewrite app_nil_r.
Qed.

Lemma stream_consume_cons userId sessionId st registry event items w :
  stream_consume userId sessionId st ((registry, event) :: items) w =
  stream_consume userId sessionId
    (eval (stream_event userId sessionId st event) (set_onlineUsers registry w))
    items
    (exec (stream_event userId sessionId st event) (set_onlineUsers registry w)).
Proof. cbn [stream_consume]. mstep. now rewrite bind_run. Qed.

Lemma stream_consume_spec userId sessionId items st w :
  done st = false ->
  let st' := eval (stream_consume userId sessionId st items) w in
  let w' := exec (stream_consume userId sessionId st items) w in
  (messageId st' = messageId st /\ done st' = false /\
   textSoFar st' = textSoFar st +:+ received_text items) /\
  run_appends (log w) (log w') (tool_records items) /\
  (exists new, fx w' = fx w ++ new /\ forallb progress_effect new = true).
Proof.
  revert st w. induction items as [|[registry event] items IH]; intros st w Hd.
  - cbn. rewrite append_empty_r. split; [auto|].
    split; [apply run_appends_refl|]. exists []. now rewrite app_nil_r.
  - cbv zeta. unfold eval, exec. rewrite stream_consume_cons.
    destruct (stream_event_spec userId sessionId st event (set_onlineUsers registry w) Hd)
      as ((Hi & Hd' & Ht) & Hl & (new1 & Hf1 & Hp1)).
    destruct (IH _ (exec (stream_event userId sessionId st event) (set_onlineUsers registry w)) Hd')
      as ((Hi2 & Hd2 & Ht2) & Hl2 & (new2 & Hf2 & Hp2)).
    unfold eval, exec in *. split; [|split].
    + rewrite Hi2, Hd2, Ht2, Hi, Ht. cbn [received_text foldr snd].
      now rewrite append_assoc.
    + cbn [tool_records flat_map snd]. eapply run_appends_trans; [|exact Hl2].
      exact Hl.
    + exists (new1 ++ new2). rewrite Hf2, Hf1. wsimpl.
      rewrite forallb_app, Hp1, Hp2. now rewrite app_assoc.
Qed.

(** The same, when the user is offline at every lookup. *)
Lemma stream_event_offline userId sessionId st event w :
  done st = false ->
  (looks_up event = true -> onlineUsers w !! userId = None) ->
  let w' := exec (stream_event userId sessionId st event) w in
  emissions (fx w') = emissions (fx w) /\
  exists new, log w' = log w ++ new /\ map kind new = record_of event /\
              Forall (undelivered_for userId sessionId) new.
Proof.
  intros Hd Hoff w'. subst w'. unfold exec.
  destruct event as [t|toolName|toolName| |ty].
  - rewrite stream_event_text_delta by exact Hd. cbn [snd].
    assert (H : match onlineUsers w !! userId with
                | Some sid =>
                    if truthy (default "" t) && truthy sid
                    then set_fx (fx w ++ [Emit sid (ai_chunk (messageId st) sessionId (default "" t))]) w
                    else w
                | None => w
                end = w).
    { cbn [looks_up] in Hoff. destruct (truthy (default "" t)).
      - now rewrite Hoff.
      - destruct (onlineUsers w !! userId); reflexivity. }
    rewrite H. split; [reflexivity|]. exists []. now rewrite app_nil_r.
  - rewrite stream_event_tool_call. cbn [snd].
    edestruct (persist_then_notify_offline userId) as (Hl & Hf & _);
      [|rewrite Hl, Hf]; [wsimpl; left; now apply Hoff|].
    wsimpl. split; [rewrite emissions_app; cbn; now rewrite app_nil_r|].
    eexists [_]. split; [reflexivity|]. split; [reflexivity|].
    repeat constructor.
  - rewrite stream_event_tool_result. cbn [snd].
    edestruct (persist_then_notify_offline userId) as (Hl & Hf & _);
      [|rewrite Hl, Hf]; [wsimpl; left; now apply Hoff|].
    wsimpl. split; [rewrite emissions_app; cbn; now rewrite app_nil_r|].
    eexists [_]. split; [reflexivity|]. split; [reflexivity|].
    repeat constructor.
  - cbn. split; [reflexivity|]. exists []. now rewrite app_nil_r.
  - cbn. split; [reflexivity|]. exists []. now rewrite app_nil_r.
Qed.

Lemma stream_consume_offline userId sessionId items st w :
  done st = false ->
  Forall (fun it => looks_up (snd it) = true -> fst it !! userId = None) items ->
  let w' := exec (stream_consume userId sessionId st items) w in
  emissions (fx w') = emissions (fx w) /\
  exists new, log w' = log w ++ new /\ map kind new = tool_records items /\
              Forall (undelivered_for userId sessionId) new.
Proof.
  revert st w. induction items as [|[registry event] items IH]; intros st w Hd Hoff.
  - cbn. split; [reflexivity|]. exists []. now rewrite app_nil_r.
  - cbv zeta. unfold exec. rewrite stream_consume_cons.
    apply Forall_cons in Hoff as [Hoff1 Hoff]. cbn [fst snd] in Hoff1.
    destruct (stream_event_spec userId sessionId st event (set_onlineUsers registry w) Hd)
      as ((_ & Hd' & _) & _).
    destruct (stream_event_offline userId sessionId st event (set_onlineUsers registry w) Hd Hoff1)
      as (He1 & new1 & Hl1 & Hk1 & Hu1).
    destruct (IH _ (exec (stream_event userId sessionId st event) (set_onlineUsers registry w))
                Hd' Hoff) as (He2 & new2 & Hl2 & Hk2 & Hu2).
    unfold eval, exec in *. split.
    + rewrite He2, He1. reflexivity.
    + exists (new1 ++ new2). rewrite Hl2, Hl1. wsimpl.
      split; [now rewrite app_assoc|]. split.
      * rewrite map_app, Hk1, Hk2. reflexivity.
      * now apply Forall_app.
Qed.

Lemma stream_catch_eq st err w :
  stream_catch st err w =
  (mkStream (messageId st) (textSoFar st) true, set_fx (fx w ++ [ConsoleError err]) w).
Proof. unfold stream_catch. mstep. now rewrite ret_eq. Qed.

Lemma startAIStream_eq userId sessionId input eng w :
  startAIStream userId sessionId input eng w =
  stream_resume userId sessionId eng (mkStream (uuids w (drawn w)) "" false)
    (set_fx (fx w ++ started_fx w userId (uuids w (drawn w)) sessionId ++ [StreamText input])
       (set_drawn (S (drawn w)) w)).
Proof.
  unfold startAIStream. rewrite bind_run. unfold eval, exec.
  now rewrite stream_start_eq.
Qed.

Lemma stream_resume_yields userId sessionId items fin st w :
  stream_resume userId sessionId (stream_yields items fin) st w =
  let st' := eval (stream_consume userId sessionId st items) w in
  let w' := exec (stream_consume userId sessionId st items) w in
  match fin with
  | feed_throws err => stream_catch st' err w'
  | text_rejects err => stream_catch st' err w'
  | text_resolves registry finalText =>
      stream_finalize userId sessionId st' finalText (set_onlineUsers registry w')
  end.
Proof.
  cbn [stream_resume]. rewrite bind_run. cbv zeta.
  destruct fin; [reflexivity | reflexivity |]. now mstep.
Qed.

(** ** One invocation, end to end *)

(** C1. When the user has no presence entry at any lookup of an
    invocation of [startAIStream], the invocation emits no notification at
    all, and the log afterwards is the log before followed by the records
    of the invocation: one [tool_use] or [tool_result] record per tool
    event, in feed order, then the final [ai] text record when the run
    succeeds; each of them has [delivered = false] and no [deliveredAt]. *)
Theorem offline_invocation_persists_undelivered
  (w : World) (userId sessionId input : string) (eng : Engine) :
  offline_throughout userId w eng ->
  let w' := exec (startAIStream userId sessionId input eng) w in
  emissions (fx w') = emissions (fx w) /\
  exists produced,
    log w' = log w ++ produced /\
    map kind produced = expected_records eng /\
    Forall (undelivered_for userId sessionId) produced.
Proof.
  intros [Hstart Heng] w'. subst w'. unfold exec. rewrite startAIStream_eq.
  unfold started_fx. rewrite Hstart. cbn [app].
  set (w0 := set_fx _ _). set (st0 := mkStream _ _ _).
  assert (He0 : emissions (fx w0) = emissions (fx w)).
  { subst w0. wsimpl. rewrite emissions_app. cbn. now rewrite app_nil_r. }
  assert (Hl0 : log w0 = log w) by reflexivity.
  destruct eng as [err|items fin].
  - cbn [stream_resume]. rewrite stream_catch_eq. cbn [snd]. wsimpl. split.
    + rewrite emissions_app, He0. cbn. now rewrite app_nil_r.
    + exists []. rewrite Hl0, app_nil_r. repeat split. constructor.
  - destruct Heng as [Hitems Hfin]. rewrite stream_resume_yields. cbv zeta.
    destruct (stream_consume_offline userId sessionId items st0 w0 eq_refl Hitems)
      as (He & new & Hl & Hk & Hu).
    destruct (stream_consume_spec userId sessionId items st0 w0 eq_refl)
      as ((Hid & _ & Htext) & _).
    cbn [textSoFar st0] in Htext. change ("" +:+ received_text items)
      with (received_text items) in Htext.
    destruct fin as [err|err|registry finalText].
    + rewrite stream_catch_eq. cbn [snd]. wsimpl. split.
      * rewrite emissions_app, He, He0. cbn. now rewrite app_nil_r.
      * exists new. rewrite Hl, Hl0. cbn [expected_records]. now rewrite app_nil_r.
    + rewrite stream_catch_eq. cbn [snd]. wsimpl. split.
      * rewrite emissions_app, He, He0. cbn. now rewrite app_nil_r.
      * exists new. rewrite Hl, Hl0. cbn [expected_records]. now rewrite app_nil_r.
    + rewrite stream_finalize_eq. cbn [snd].
      edestruct (persist_then_notify_offline userId) as (Hl' & Hf' & _);
        [|rewrite Hl', Hf']; [wsimpl; left; exact Hfin|].
      wsimpl. split.
      * rewrite emissions_app, He, He0. cbn. now rewrite app_nil_r.
      * eexists (new ++ [_]). rewrite Hl, Hl0. split; [now rewrite app_assoc|]. split.
        -- rewrite map_app, Hk. cbn [expected_records map kind Message.role Message.message].
           now rewrite Htext.
        -- apply Forall_app. split; [exact Hu|]. repeat constructor.
Qed.

Lemma tool_records_system items :
  Forall (fun k => fst k = system) (tool_records items).
Proof.
  induction items as [|[registry event] items IH]; cbn; [constructor|].
  apply Forall_app. split; [|exact IH].
  destruct event; cbn; repeat constructor.
Qed.

Lemma kinds_system (l : list Message) kinds :
  map kind l = kinds -> Forall (fun k => fst k = system) kinds ->
  Forall (fun m => Message.role m = system) l.
Proof.
  intros <- H. induction l as [|m l IH]; [constructor|].
  cbn in H. apply Forall_cons in H as [H1 H2]. constructor; auto.
Qed.




Lemma failed_run_eq userId sessionId input eng items err w :
  failure eng = Some (items, err) ->
  let st0 := mkStream (uuids w (drawn w)) "" false in
  let w0 := set_fx (fx w ++ started_fx w userId (uuids w (drawn w)) sessionId
                         ++ [StreamText input]) (set_drawn (S (drawn w)) w) in
  startAIStream userId sessionId input eng w =
  stream_catch (eval (stream_consume userId sessionId st0 items) w0) err
    (exec (stream_consume userId sessionId st0 items) w0).
Proof.
  intros Hfail. cbv zeta. rewrite startAIStream_eq.
  destruct eng as [e|its [e|e|registry finalText]]; cbn in Hfail;
    try discriminate; injection Hfail as <- <-.
  - reflexivity.
  - now rewrite stream_resume_yields.
  - now rewrite stream_resume_yields.
Qed.

(** C6. When the engine fails (the call of [agent.streamText] rejects, the
    feed throws, or the final text rejects), the run ends in the [catch]
    block: the error is logged with [console.error] and that is the last
    effect of the run. Before it the run has only made progress effects
    (store writes, the engine call, [ai_started], [ai_chunk],
    [ai_tool_call], [ai_tool_result]): it emits no [ai_complete] and no
    notification of the failure. The log keeps what it had and the tool
    records persisted before the error, all of role [system]: no [ai]
    record is persisted for the run. *)
Theorem failed_run_persists_no_final
  (w : World) (userId sessionId input : string) (eng : Engine)
  (items : list (gmap string string * StreamEvent)) (err : string) :
  failure eng = Some (items, err) ->
  let w' := exec (startAIStream userId sessionId input eng) w in
  (exists progress,
     fx w' = fx w ++ progress ++ [ConsoleError err] /\
     forallb progress_effect progress = true) /\
  (exists kept tools,
     log w' = kept ++ tools /\
     Forall2 persists_as (log w) kept /\
     map kind tools = tool_records items /\
     Forall (fun m => Message.role m = system) tools) /\
  done (eval (startAIStream userId sessionId input eng) w) = true.
Proof.
  intros Hfail w'. subst w'. unfold exec, eval.
  rewrite (failed_run_eq userId sessionId input eng items err w Hfail).
  set (w0 := set_fx _ _). set (st0 := mkStream _ _ _).
  destruct (stream_consume_spec userId sessionId items st0 w0 eq_refl)
    as (_ & (kept & tools & Hl & Hkept & Hk) & (new & Hf & Hp)).
  change (log w0) with (log w) in Hkept.
  rewrite stream_catch_eq. cbn [fst snd done]. wsimpl. rewrite Hf, Hl.
  split; [|split; [|reflexivity]].
  - exists ((started_fx w userId (uuids w (drawn w)) sessionId ++ [StreamText input]) ++ new).
    subst w0. wsimpl. split; [now rewrite <- !app_assoc|].
    rewrite !forallb_app, Hp. unfold started_fx.
    destruct (onlineUsers w !! userId) as [sid|]; [destruct (truthy sid)|]; reflexivity.
  - exists kept, tools. repeat split; try assumption.
    eapply kinds_system; [exact Hk | apply tool_records_system].
Qed.

Lemma offline_invocation_persists_undelivered_witness :
  let w' := exec (startAIStream "alice" "s1" "where to play" offline_run) boot in
  emissions (fx w') = emissions (fx boot) /\
  exists produced,
    log w' = log boot ++ produced /\
    map kind produced = expected_records offline_run /\
    Forall (undelivered_for "alice" "s1") produced.
Proof.
  apply (offline_invocation_persists_undelivered boot "alice" "s1" "where to play" offline_run).
  split; [reflexivity|]. split; [|reflexivity].
  repeat constructor.
Defined.

Example offline_run_log :
  let w' := exec (startAIStream "alice" "s1" "where to play" offline_run) boot in
  log w' =
  [ Message.mk "b-uuid" "alice" "s1" 1000 false None system (tool_use "get_weather");
    Message.mk "c-uuid" "alice" "s1" 1001 false None system (tool_result "get_weather");
    Message.mk "a-uuid" "alice" "s1" 1002 false None ai (text "Go to the Bund") ] /\
  emissions (fx w') = [].
Proof. split; reflexivity. Qed.

(** The scenario of the specification: alice, online in "s1". *)
Example online_run_scenario :
  let w' := exec (startAIStream "alice" "s1" "where to play" online_run) (set_fx [] alice_in_s1) in
  log w' =
  [ Message.mk "b-uuid" "alice" "s1" 1001 true (Some 1002) system (tool_use "get_weather");
    Message.mk "c-uuid" "alice" "s1" 1003 true (Some 1004) system (tool_result "get_weather");
    Message.mk "a-uuid" "alice" "s1" 1005 true (Some 1006) ai (text "Go to the Bund.") ] /\
  emissions (fx w') =
  [ ("sock1", ai_started "a-uuid" "s1");
    ("sock1", ai_tool_call "s1" "get_weather");
    ("sock1", ai_tool_result "s1" "get_weather");
    ("sock1", ai_chunk "a-uuid" "s1" "Go to ");
    ("sock1", ai_chunk "a-uuid" "s1" "the Bund");
    ("sock1", ai_complete "a-uuid" "s1" "Go to the Bund.") ].
Proof. split; reflexivity. Qed.

Lemma failed_run_persists_no_final_witness :
  let w' := exec (startAIStream "alice" "s1" "where to play" failing_run) alice_in_s1 in
  (exists progress,
     fx w' = fx alice_in_s1 ++ progress ++ [ConsoleError "boom"] /\
     forallb progress_effect progress = true) /\
  (exists kept tools,
     log w' = kept ++ tools /\
     Forall2 persists_as (log alice_in_s1) kept /\
     map kind tools = tool_records [ (alice_registry, tool_call "get_weather");
                                     (alice_registry, text_delta (Some "Go")) ] /\
     Forall (fun m => Message.role m = system) tools) /\
  done (eval (startAIStream "alice" "s1" "where to play" failing_run) alice_in_s1) = true.
Proof.
  apply (failed_run_persists_no_final alice_in_s1 "alice" "s1" "where to play" failing_run).
  reflexivity.
Defined.

Example failing_run_trace :
  let w' := exec (startAIStream "alice" "s1" "where to play" failing_run) (set_fx [] alice_in_s1) in
  log w' =
  [ Message.mk "b-uuid" "alice" "s1" 1001 true (Some 1002) system (tool_use "get_weather") ] /\
  emissions (fx w') =
  [ ("sock1", ai_started "a-uuid" "s1");
    ("sock1", ai_tool_call "s1" "get_weather");
    ("sock1", ai_chunk "a-uuid" "s1" "Go") ] /\
  last (fx w') = Some (ConsoleError "boom").
Proof. repeat split; reflexivity. Qed.

(** * Further properties of the server *)

(** ** The session directory *)

Lemma upserted_cons item x data :
  upserted item (x :: data) =
  if String.eqb (SessionItem.id x) (SessionItem.id item)
  then item :: data else x :: upserted item data.
Proof.
  unfold upserted. cbn [findIndex].
  destruct (String.eqb (SessionItem.id x) (SessionItem.id item)); [reflexivity|].
  destruct (findIndex _ data); reflexivity.
Qed.

Lemma session_with_upserted_same item data :
  session_with (SessionItem.id item) (upserted item data) = Some item.
Proof.
  unfold session_with. induction data as [|x data IH].
  - cbn. now rewrite String.eqb_refl.
  - rewrite upserted_cons.
    destruct (String.eqb (SessionItem.id x) (SessionItem.id item)) eqn:E; cbn [List.find].
    + now rewrite String.eqb_refl.
    + now rewrite E.
Qed.

Lemma session_with_upserted_other item data sessionId :
  sessionId <> SessionItem.id item ->
  session_with sessionId (upserted item data) = session_with sessionId data.
Proof.
  intros Hne. unfold session_with. induction data as [|x data IH].
  - cbn. apply not_eq_sym, String.eqb_neq in Hne. now rewrite Hne.
  - rewrite upserted_cons.
    destruct (String.eqb_spec (SessionItem.id x) (SessionItem.id item)) as [E|E]; cbn [List.find].
    + apply not_eq_sym, String.eqb_neq in Hne. rewrite Hne.
      rewrite E. now rewrite Hne.
    + now rewrite IH.
Qed.

Lemma upserted_length item data :
  length (upserted item data) =
  if existsb (fun s => String.eqb (SessionItem.id s) (SessionItem.id item)) data
  then length data else S (length data).
Proof.
  induction data as [|x data IH]; [reflexivity|].
  rewrite upserted_cons. cbn [existsb].
  destruct (String.eqb (SessionItem.id x) (SessionItem.id item)); cbn [orb length];
    [reflexivity|].
  rewrite IH. now destruct (existsb _ data).
Qed.

Lemma upserted_idem item data : upserted item (upserted item data) = upserted item data.
Proof.
  induction data as [|x data IH].
  - cbn. unfold upserted. cbn. now rewrite String.eqb_refl.
  - rewrite upserted_cons.
    destruct (String.eqb (SessionItem.id x) (SessionItem.id item)) eqn:E;
      rewrite upserted_cons.
    + now rewrite String.eqb_refl.
    + now rewrite E, IH.
Qed.

Lemma In_upserted item data : In item (upserted item data).
Proof.
  induction data as [|x data IH]; [now left|].
  rewrite upserted_cons. destruct (String.eqb _ _); [now left | now right].
Qed.

(** X1. [getSessionsForUser] returns exactly the sessions of that user
    that the directory holds (each as often as it is there), most recently
    updated first, and changes neither the directory, nor the log, nor the
    trace of effects. *)
Theorem getSessionsForUser_lists_own_sessions (userId : string) (w : World) :
  let l := eval (getSessionsForUser userId) w in
  let w' := exec (getSessionsForUser userId) w in
  (forall e, In e l <-> In e (directory w) /\ SessionItem.userId e = userId) /\
  Permutation l
    (List.filter (fun s => String.eqb (SessionItem.userId s) userId) (directory w)) /\
  StronglySorted by_recency l /\
  directory w' = directory w /\ log w' = log w /\ fx w' = fx w.
Proof.
  cbv zeta. unfold eval, exec. rewrite getSessionsForUser_eq. cbn [fst snd].
  split; [intros e; apply In_listed|].
  split; [apply sort_by_perm|].
  split; [apply sort_by_recency_sorted|].
  repeat split.
Qed.

(** X2. After [upsertSession item] the first session of the directory
    with the id of [item] is [item] itself, every other id is looked up as
    before, the directory has grown by one exactly when the id was not
    there, and upserting the same item again changes nothing more. *)
Theorem upsertSession_then_lookup (item : SessionItem) (w : World) :
  let w' := exec (upsertSession item) w in
  session_with (SessionItem.id item) (directory w') = Some item /\
  (forall sessionId, sessionId <> SessionItem.id item ->
     session_with sessionId (directory w') = session_with sessionId (directory w)) /\
  length (directory w') =
    (if existsb (fun s => String.eqb (SessionItem.id s) (SessionItem.id item)) (directory w)
     then length (directory w) else S (length (directory w))) /\
  directory (exec (upsertSession item) w') = directory w' /\
  log w' = log w.
Proof.
  cbv zeta. unfold exec. rewrite !upsertSession_eq. cbn [snd]. wsimpl.
  split; [apply session_with_upserted_same|].
  split; [intros sid Hne; now apply session_with_upserted_other|].
  split; [apply upserted_length|].
  split; [apply upserted_idem | reflexivity].
Qed.

(** ** The backlog of undelivered records *)





(** ** Presence: [register] and [disconnect] *)

Lemma disconnect_eq socket w :
  disconnect socket w =
  (tt, match socketData w !! socket with
       | Some userId =>
           if truthy userId && bool_decide (onlineUsers w !! userId = Some socket)
           then set_onlineUsers (delete userId (onlineUsers w)) w
           else w
       | None => w
       end).
Proof.
  unfold disconnect. rewrite bind_run. unfold eval, exec, socket_userId, gets.
  cbn [fst snd]. destruct (socketData w !! socket) as [userId|]; [|reflexivity].
  destruct (truthy userId); [|reflexivity]. cbn [andb].
  rewrite bind_run. unfold eval, exec, gets. cbn [fst snd].
  destruct (bool_decide _); reflexivity.
Qed.

(** X4. [disconnect] removes the presence entry of the connection's user
    only when that entry still holds this very connection; when it holds
    another connection, or the connection never registered, nothing
    changes. In every case the entries of other users, the identities of
    the connections, the store and the trace are left alone. *)
Theorem disconnect_removes_only_own_entry (socket : string) (w : World) :
  let w' := exec (disconnect socket) w in
  (forall userId, socketData w !! socket = Some userId -> userId <> "" ->
     onlineUsers w !! userId = Some socket ->
     onlineUsers w' !! userId = None /\
     forall other, other <> userId -> onlineUsers w' !! other = onlineUsers w !! other) /\
  (forall userId, socketData w !! socket = Some userId ->
     onlineUsers w !! userId <> Some socket -> w' = w) /\
  (socketData w !! socket = None -> w' = w) /\
  socketData w' = socketData w /\ log w' = log w /\
  directory w' = directory w /\ fx w' = fx w.
Proof.
  cbv zeta. unfold exec. rewrite disconnect_eq. cbn [snd].
  split; [|split; [|split]].
  - intros userId Hs Hu Hon. apply truthy_true in Hu.
    rewrite Hs, Hu, bool_decide_eq_true_2 by exact Hon. cbn.
    split; [apply lookup_delete_eq|]. intros other Ho. now apply lookup_delete_ne.
  - intros userId Hs Hon. rewrite Hs, bool_decide_eq_false_2 by exact Hon.
    now rewrite andb_false_r.
  - now intros ->.
  - destruct (socketData w !! socket) as [userId|]; [|repeat split].
    destruct (truthy userId && bool_decide _); repeat split.
Qed.

(** X5. Presence follows the latest connection of a user. After a
    connection registers and disconnects, the user is offline. When the
    user has registered on a newer connection in between, the late
    disconnect of the older one leaves the user online on the newer. *)
Theorem presence_follows_latest_connection (w : World) (old new userId : string) :
  userId <> "" -> old <> new ->
  onlineUsers (exec (disconnect old) (exec (register old userId) w)) !! userId = None /\
  onlineUsers (exec (disconnect old)
                 (exec (register new userId) (exec (register old userId) w))) !! userId
  = Some new.
Proof.
  intros Hu Hne. unfold exec. rewrite !disconnect_eq, !register_eq by exact Hu.
  cbn [snd]. wsimpl. pose proof (proj2 (truthy_true userId) Hu) as Ht. split.
  - rewrite lookup_insert_eq, Ht, bool_decide_eq_true_2 by apply lookup_insert_eq.
    cbn. apply lookup_delete_eq.
  - rewrite lookup_insert_ne, lookup_insert_eq by (apply not_eq_sym; exact Hne).
    rewrite Ht, bool_decide_eq_false_2.
    + cbn. apply lookup_insert_eq.
    + rewrite lookup_insert_eq. congruence.
Qed.

Lemma presence_follows_latest_connection_witness :
  onlineUsers (exec (disconnect "sock1") (exec (register "sock1" "alice") boot)) !! "alice"
  = None /\
  onlineUsers (exec (disconnect "sock1")
                 (exec (register "sock2" "alice") (exec (register "sock1" "alice") boot)))
    !! "alice"
  = Some "sock2".
Proof.
  apply (presence_follows_latest_connection boot "sock1" "sock2" "alice"); discriminate.
Defined.

(** X6. A connection that registers as one user and then as another
    leaves the first user's presence entry behind: [disconnect] only
    looks at the connection's current identity, so after the disconnect
    the second user is offline while the first is still recorded as
    online on the closed connection. *)
Theorem reregistration_leaves_stale_presence (w : World) (socket first second : string) :
  first <> "" -> second <> "" -> first <> second ->
  let w' := exec (disconnect socket)
              (exec (register socket second) (exec (register socket first) w)) in
  onlineUsers w' !! first = Some socket /\ onlineUsers w' !! second = None.
Proof.
  intros H1 H2 Hne. cbv zeta. unfold exec.
  rewrite disconnect_eq, !register_eq by assumption. cbn [snd]. wsimpl.
  rewrite lookup_insert_eq, (proj2 (truthy_true second) H2).
  rewrite bool_decide_eq_true_2 by apply lookup_insert_eq. cbn. split.
  - rewrite lookup_delete_ne, lookup_insert_ne by (apply not_eq_sym; exact Hne).
    apply lookup_insert_eq.
  - apply lookup_delete_eq.
Qed.

Lemma reregistration_leaves_stale_presence_witness :
  let w' := exec (disconnect "sock1")
              (exec (register "sock1" "bob") (exec (register "sock1" "alice") boot)) in
  onlineUsers w' !! "alice" = Some "sock1" /\ onlineUsers w' !! "bob" = None.
Proof.
  apply (reregistration_leaves_stale_presence boot "sock1" "alice" "bob"); discriminate.
Defined.

(** ** Intents the gateway drops *)

Lemma intents_dropped w socket sessionId txt title :
  no_identity w socket \/ sessionId = "" ->
  session_create socket sessionId title w = (tt, w) /\
  session_open socket sessionId w = (tt, w) /\
  ai_send socket sessionId txt w = (None, w) /\
  ai_send socket sessionId "" w = (None, w).
Proof.
  intros H.
  unfold session_create, session_open, ai_send.
  rewrite !bind_run. unfold eval, exec, socket_userId, gets. cbn [fst snd].
  destruct H as [[H|H]|H].
  - rewrite H. repeat split.
  - rewrite H. repeat split.
  - subst sessionId. destruct (socketData w !! socket) as [u|]; [|repeat split].
    cbn [truthy String.eqb negb]. rewrite !orb_true_r. repeat split.
Qed.

Lemma intent_cases w socket sessionId :
  (exists userId, socketData w !! socket = Some userId /\ userId <> "" /\ sessionId <> "") \/
  (no_identity w socket \/ sessionId = "").
Proof.
  unfold no_identity. destruct (socketData w !! socket) as [u|]; [|now right; left; left].
  destruct (String.eqb_spec u ""); [subst; now right; left; right|].
  destruct (String.eqb_spec sessionId ""); [now right; right|].
  left. eauto.
Qed.



(** ** Creating sessions *)

Lemma session_with_listed_unique userId data item :
  NoDup (map SessionItem.id data) -> In item data -> SessionItem.userId item = userId ->
  session_with (SessionItem.id item) (listed userId data) = Some item.
Proof.
  intros Hnd Hin Hu.
  destruct (session_with (SessionItem.id item) (listed userId data)) as [e|] eqn:F.
  - apply session_with_Some in F as (Hin' & Hid & _).
    f_equal. now apply (NoDup_id_unique data).
  - rewrite session_with_None in F. now destruct (F item Hin Hu).
Qed.

Lemma session_create_directory w socket userId sessionId title :
  socketData w !! socket = Some userId -> userId <> "" -> sessionId <> "" ->
  let item := created_item sessionId userId title
                (session_with sessionId (listed userId (directory w))) (clock w (ticks w)) in
  let w' := exec (session_create socket sessionId title) w in
  directory w' = upserted item (directory w) /\
  log w' = log w /\
  fx w' = fx w ++ [WriteSessions (directory w');
                   Emit socket (session_list (listed userId (directory w')))].
Proof.
  intros Hs Hu Hn. cbv zeta. unfold exec.
  rewrite (session_create_eq w socket userId sessionId title) by assumption.
  cbn [snd]. wsimpl. repeat split.
Qed.

(** X8. After a valid [session_create] the user's listing holds an item
    with that session id, owned by the user and updated at the time of the
    call, and the last thing the handler does is push that listing to the
    connection. The message log is not touched. *)
Theorem session_create_lists_the_session
  (w : World) (socket userId sessionId : string) (title : option string) :
  socketData w !! socket = Some userId -> userId <> "" -> sessionId <> "" ->
  let w' := exec (session_create socket sessionId title) w in
  (exists item,
     In item (listed userId (directory w')) /\
     SessionItem.id item = sessionId /\ SessionItem.userId item = userId /\
     SessionItem.updatedAt item = clock w (ticks w)) /\
  last (fx w') = Some (Emit socket (session_list (listed userId (directory w')))) /\
  log w' = log w.
Proof.
  intros Hs Hu Hn.
  destruct (session_create_directory w socket userId sessionId title Hs Hu Hn)
    as (Hd & Hl & Hf).
  cbv zeta. rewrite Hf, Hl, Hd. split; [|split; [|reflexivity]].
  - eexists. split; [apply In_listed; split; [apply In_upserted | reflexivity]|].
    repeat split.
  - now rewrite last_app.
Qed.

Lemma session_create_lists_the_session_witness :
  let w' := exec (session_create "sock1" "s2" (Some "Trip")) alice_in_s1 in
  (exists item,
     In item (listed "alice" (directory w')) /\
     SessionItem.id item = "s2" /\ SessionItem.userId item = "alice" /\
     SessionItem.updatedAt item = clock alice_in_s1 (ticks alice_in_s1)) /\
  last (fx w') = Some (Emit "sock1" (session_list (listed "alice" (directory w')))) /\
  log w' = log alice_in_s1.
Proof.
  apply (session_create_lists_the_session alice_in_s1 "sock1" "alice" "s2" (Some "Trip")).
  - reflexivity.
  - discriminate.
  - discriminate.
Defined.

(** X9. Session ids are looked up across users when a session is written
    but per user when it is read: a valid [session_create] with an id that
    (in a directory of distinct ids) belongs to another user overwrites
    that user's session. Afterwards the other user no longer has a
    session of that id, and the creator has a new one, created now. *)
Theorem session_create_takes_over_foreign_id
  (w : World) (socket userId sessionId : string) (title : option string)
  (e : SessionItem) :
  socketData w !! socket = Some userId -> userId <> "" -> sessionId <> "" ->
  NoDup (map SessionItem.id (directory w)) ->
  In e (directory w) -> SessionItem.id e = sessionId -> SessionItem.userId e <> userId ->
  let w' := exec (session_create socket sessionId title) w in
  ~ In e (directory w') /\
  session_with sessionId (listed (SessionItem.userId e) (directory w')) = None /\
  length (directory w') = length (directory w) /\
  exists item,
    session_with sessionId (listed userId (directory w')) = Some item /\
    SessionItem.createdAt item = clock w (ticks w).
Proof.
  intros Hs Hu Hn Hnd Hin Hid Hother.
  destruct (session_create_directory w socket userId sessionId title Hs Hu Hn)
    as (Hd & _ & _).
  cbv zeta. rewrite Hd. clear Hd.
  set (item := created_item _ _ _ _ _).
  assert (Hnone : session_with sessionId (listed userId (directory w)) = None).
  { apply session_with_None. intros e' Hin' Hu' Hid'.
    apply Hother. rewrite <- Hu'. f_equal.
    apply (NoDup_id_unique (directory w)); congruence. }
  assert (Hnd' : NoDup (map SessionItem.id (upserted item (directory w))))
    by now apply upserted_NoDup.
  assert (Hitem : In item (upserted item (directory w))) by apply In_upserted.
  split; [|split; [|split]].
  - intros Hin'. apply Hother.
    assert (e = item) as -> by (apply (NoDup_id_unique _ _ _ Hnd' Hin' Hitem); exact Hid).
    reflexivity.
  - apply session_with_None. intros e' Hin' Hu' Hid'.
    apply Hother. rewrite <- Hu'.
    assert (e' = item) as -> by (apply (NoDup_id_unique _ _ _ Hnd' Hin' Hitem); exact Hid').
    reflexivity.
  - rewrite upserted_length.
    replace (existsb _ (directory w)) with true; [reflexivity|].
    symmetry. apply existsb_exists. exists e. split; [exact Hin|].
    apply String.eqb_eq. exact Hid.
  - exists item. split.
    + apply (session_with_listed_unique userId _ item Hnd' Hitem). reflexivity.
    + subst item. cbn. now rewrite Hnone.
Qed.

Lemma session_create_takes_over_foreign_id_witness :
  let e := SessionItem.mk "s1" "bob" "Bob's" 1000 1000 in
  let w' := exec (session_create "sock1" "s1" None) bob_has_s1 in
  ~ In e (directory w') /\
  session_with "s1" (listed (SessionItem.userId e) (directory w')) = None /\
  length (directory w') = length (directory bob_has_s1) /\
  exists item,
    session_with "s1" (listed "alice" (directory w')) = Some item /\
    SessionItem.createdAt item = clock bob_has_s1 (ticks bob_has_s1).
Proof.
  apply (session_create_takes_over_foreign_id bob_has_s1 "sock1" "alice" "s1" None
           (SessionItem.mk "s1" "bob" "Bob's" 1000 1000)).
  - reflexivity.
  - discriminate.
  - discriminate.
  - apply NoDup_singleton.
  - left. reflexivity.
  - reflexivity.
  - discriminate.
Defined.

Example session_create_takes_over_run :
  directory bob_has_s1 = [SessionItem.mk "s1" "bob" "Bob's" 1000 1000] /\
  directory (exec (session_create "sock1" "s1" None) bob_has_s1)
  = [SessionItem.mk "s1" "alice" default_title 1001 1001].
Proof. split; reflexivity. Qed.

(** X10. The title of a session. In a directory of distinct ids, a valid
    [session_create] that gives no title, or an empty one, keeps the title
    of the user's existing session when that title is not empty, and uses
    the placeholder title when the user has no such session. *)
Theorem session_create_title_defaults
  (w : World) (socket userId sessionId : string) (title : option string) :
  socketData w !! socket = Some userId -> userId <> "" -> sessionId <> "" ->
  NoDup (map SessionItem.id (directory w)) ->
  title = None \/ title = Some "" ->
  let w' := exec (session_create socket sessionId title) w in
  exists item,
    session_with sessionId (listed userId (directory w')) = Some item /\
    (forall e, session_with sessionId (listed userId (directory w)) = Some e ->
       SessionItem.title e <> "" -> SessionItem.title item = SessionItem.title e) /\
    (session_with sessionId (listed userId (directory w)) = None ->
       SessionItem.title item = default_title).
Proof.
  intros Hs Hu Hn Hnd Ht.
  destruct (session_create_directory w socket userId sessionId title Hs Hu Hn)
    as (Hd & _ & _).
  cbv zeta. rewrite Hd. clear Hd.
  set (item := created_item _ _ _ _ _). exists item. split; [|split].
  - apply (session_with_listed_unique userId _ item);
      [now apply upserted_NoDup | apply In_upserted | reflexivity].
  - intros e He Hte. subst item. rewrite He. unfold created_item. cbn.
    apply truthy_true in Hte. unfold or_else.
    destruct Ht as [-> | ->]; cbn; now rewrite Hte.
  - intros He. subst item. rewrite He. unfold created_item. cbn.
    destruct Ht as [-> | ->]; reflexivity.
Qed.

Lemma session_create_title_defaults_witness :
  let w' := exec (session_create "sock2" "s1" None) bob_has_s1 in
  exists item,
    session_with "s1" (listed "bob" (directory w')) = Some item /\
    (forall e, session_with "s1" (listed "bob" (directory bob_has_s1)) = Some e ->
       SessionItem.title e <> "" -> SessionItem.title item = SessionItem.title e) /\
    (session_with "s1" (listed "bob" (directory bob_has_s1)) = None ->
       SessionItem.title item = default_title).
Proof.
  apply (session_create_title_defaults bob_has_s1 "sock2" "bob" "s1" None).
  - reflexivity.
  - discriminate.
  - discriminate.
  - apply NoDup_singleton.
  - left. reflexivity.
Defined.

(** ** Sending *)

Lemma ai_send_frame w socket sessionId txt :
  socketData (exec (ai_send socket sessionId txt) w) = socketData w /\
  onlineUsers (exec (ai_send socket sessionId txt) w) = onlineUsers w.
Proof.
  destruct (socketData w !! socket) as [from|] eqn:Hs.
  - destruct (truthy from && truthy txt && truthy sessionId) eqn:Hv.
    + apply andb_true_iff in Hv as [Hv H3]. apply andb_true_iff in Hv as [H1 H2].
      apply truthy_true in H1, H2, H3. unfold exec.
      rewrite (ai_send_eq w socket from sessionId txt) by assumption. cbn [snd].
      destruct (session_with _ _); split; reflexivity.
    + unfold exec. rewrite (ai_send_invalid w socket from sessionId txt) by assumption.
      split; reflexivity.
  - unfold exec, ai_send. rewrite bind_run. unfold eval, exec, socket_userId, gets.
    cbn [fst snd]. rewrite Hs. split; reflexivity.
Qed.

(** X11. A valid [ai_send] into a session the user has (in a directory
    of distinct ids) rewrites that one session in place: its [updatedAt]
    becomes the time read after the message was persisted, its id, owner,
    title and [createdAt] stay, and every other session is untouched. The
    identities of the connections and the presence map do not change. *)
Theorem ai_send_bumps_in_place
  (w : World) (socket from sessionId txt : string) (e : SessionItem) :
  socketData w !! socket = Some from -> from <> "" -> sessionId <> "" -> txt <> "" ->
  NoDup (map SessionItem.id (directory w)) ->
  In e (directory w) -> SessionItem.id e = sessionId -> SessionItem.userId e = from ->
  let w' := exec (ai_send socket sessionId txt) w in
  let e' := SessionItem.mk (SessionItem.id e) (SessionItem.userId e) (SessionItem.title e)
              (SessionItem.createdAt e) (clock w (S (S (ticks w)))) in
  (exists idx, directory w !! idx = Some e /\ directory w' = <[idx := e']> (directory w)) /\
  session_with sessionId (listed from (directory w')) = Some e' /\
  socketData w' = socketData w /\ onlineUsers w' = onlineUsers w.
Proof.
  intros Hs Hu Hn Ht Hnd Hin Hid Hue. cbv zeta.
  destruct (ai_send_frame w socket sessionId txt) as [-> ->].
  assert (Hfound : session_with sessionId (listed from (directory w)) = Some e).
  { rewrite <- Hid. now apply session_with_listed_unique. }
  unfold exec. rewrite (ai_send_eq w socket from sessionId txt) by assumption.
  cbn [snd]. rewrite Hfound. wsimpl.
  change (bumped e (clock w (S (S (ticks w)))))
    with (SessionItem.mk (SessionItem.id e) (SessionItem.userId e) (SessionItem.title e)
            (SessionItem.createdAt e) (clock w (S (S (ticks w))))).
  set (e' := SessionItem.mk _ _ _ _ _).
  split; [|split; [|split; reflexivity]].
  - destruct (findIndex_by_id (directory w) e sessionId Hnd Hin Hid) as (idx & Hf & Hl).
    exists idx. split; [exact Hl|]. unfold upserted.
    change (SessionItem.id e') with (SessionItem.id e). rewrite Hid. now rewrite Hf.
  - rewrite <- Hid. change (SessionItem.id e) with (SessionItem.id e').
    apply session_with_listed_unique;
      [now apply upserted_NoDup | apply In_upserted | exact Hue].
Qed.

Lemma ai_send_bumps_in_place_witness :
  let e := SessionItem.mk "s1" "alice" default_title 1000 1000 in
  let w' := exec (ai_send "sock1" "s1" "hi") alice_in_s1 in
  let e' := SessionItem.mk (SessionItem.id e) (SessionItem.userId e) (SessionItem.title e)
              (SessionItem.createdAt e) (clock alice_in_s1 (S (S (ticks alice_in_s1)))) in
  (exists idx, directory alice_in_s1 !! idx = Some e /\
               directory w' = <[idx := e']> (directory alice_in_s1)) /\
  session_with "s1" (listed "alice" (directory w')) = Some e' /\
  socketData w' = socketData alice_in_s1 /\ onlineUsers w' = onlineUsers alice_in_s1.
Proof.
  apply (ai_send_bumps_in_place alice_in_s1 "sock1" "alice" "s1" "hi"
           (SessionItem.mk "s1" "alice" default_title 1000 1000)).
  - reflexivity.
  - discriminate.
  - discriminate.
  - discriminate.
  - apply NoDup_singleton.
  - left. reflexivity.
  - reflexivity.
  - reflexivity.
Defined.

(** X12. What is sent can be read back: after a valid [ai_send], a
    [session_open] of the same session on the same connection replays a
    list that contains the user's message, as it was persisted. *)
Theorem ai_send_then_session_open_replays_message
  (w : World) (socket from sessionId txt : string) :
  socketData w !! socket = Some from -> from <> "" -> sessionId <> "" -> txt <> "" ->
  let userMsg := Message.mk (uuids w (drawn w)) from sessionId (clock w (ticks w))
                   true (Some (clock w (S (ticks w)))) user (text txt) in
  let w' := exec (session_open socket sessionId) (exec (ai_send socket sessionId txt) w) in
  exists msgs,
    last (fx w') = Some (Emit socket (session_messages sessionId msgs)) /\
    In userMsg msgs.
Proof.
  intros Hs Hu Hn Ht. cbv zeta.
  set (w1 := exec (ai_send socket sessionId txt) w).
  assert (Hs1 : socketData w1 !! socket = Some from).
  { subst w1. destruct (ai_send_frame w socket sessionId txt) as [-> _]. exact Hs. }
  assert (Hl1 : log w1 = log w ++ [Message.mk (uuids w (drawn w)) from sessionId
                  (clock w (ticks w)) true (Some (clock w (S (ticks w)))) user (text txt)]).
  { subst w1. unfold exec. rewrite (ai_send_eq w socket from sessionId txt) by assumption.
    cbn [snd]. destruct (session_with _ _); now wsimpl. }
  unfold exec at 1. rewrite (session_open_eq w1 socket from sessionId) by assumption.
  cbn [snd]. wsimpl. eexists. split; [apply last_snoc|].
  apply sort_by_In, filter_In. split.
  - rewrite Hl1. apply in_or_app. right. now left.
  - apply in_session_true. split; reflexivity.
Qed.

Lemma ai_send_then_session_open_replays_message_witness :
  let w := alice_online in
  let userMsg := Message.mk (uuids w (drawn w)) "alice" "s1" (clock w (ticks w))
                   true (Some (clock w (S (ticks w)))) user (text "hi") in
  let w' := exec (session_open "sock1" "s1") (exec (ai_send "sock1" "s1" "hi") w) in
  exists msgs,
    last (fx w') = Some (Emit "sock1" (session_messages "s1" msgs)) /\
    In userMsg msgs.
Proof.
  apply (ai_send_then_session_open_replays_message alice_online "sock1" "alice" "s1" "hi").
  - reflexivity.
  - discriminate.
  - discriminate.
  - discriminate.
Defined.

(** ** The notifications of an invocation *)

Lemma emissions_snoc_other l e :
  (forall s n, e <> Emit s n) -> emissions (l ++ [e]) = emissions l.
Proof.
  intros H. rewrite emissions_app. destruct e; cbn; try apply app_nil_r.
  now destruct (H socketId n).
Qed.

Lemma persist_then_notify_emissions userId msg n w :
  emissions (fx (exec (persist_then_notify userId msg n) w)) =
  emissions (fx w) ++ notified (onlineUsers w) userId n.
Proof.
  unfold notified.
  destruct (persist_then_notify_cases userId w) as [H | (sid & H & Hs)].
  - destruct (persist_then_notify_offline userId msg n w H) as (_ & -> & _).
    rewrite emissions_snoc_other by discriminate.
    destruct H as [-> | ->]; cbn; now rewrite app_nil_r.
  - destruct (persist_then_notify_online userId msg n w sid H Hs)
      as (_ & (new & -> & _ & He) & _).
    rewrite H, (proj2 (truthy_true sid) Hs).
    rewrite !emissions_app, He. cbn. now rewrite ?app_nil_r.
Qed.

Lemma stream_event_emissions userId sessionId st event w :
  done st = false ->
  emissions (fx (exec (stream_event userId sessionId st event) w)) =
  emissions (fx w) ++
  match event_notification (messageId st) sessionId event with
  | Some n => notified (onlineUsers w) userId n
  | None => []
  end.
Proof.
  intros Hd. unfold exec. destruct event as [t|toolName|toolName| |ty].
  - rewrite stream_event_text_delta by exact Hd. cbn [snd event_notification].
    unfold notified.
    destruct (truthy (default "" t)); cbn [andb].
    + destruct (onlineUsers w !! userId) as [sid|]; [|now rewrite app_nil_r].
      destruct (truthy sid); [|now rewrite app_nil_r].
      wsimpl. now rewrite emissions_app.
    + rewrite app_nil_r. now destruct (onlineUsers w !! userId).
  - rewrite stream_event_tool_call. cbn [snd event_notification].
    apply (persist_then_notify_emissions userId _ _ (set_ticks _ (set_drawn _ w))).
  - rewrite stream_event_tool_result. cbn [snd event_notification].
    apply (persist_then_notify_emissions userId _ _ (set_ticks _ (set_drawn _ w))).
  - cbn. now rewrite app_nil_r.
  - cbn. now rewrite app_nil_r.
Qed.

Lemma exec_stream_consume_cons userId sessionId st registry event items w :
  exec (stream_consume userId sessionId st ((registry, event) :: items)) w =
  exec (stream_consume userId sessionId
          (eval (stream_event userId sessionId st event) (set_onlineUsers registry w)) items)
    (exec (stream_event userId sessionId st event) (set_onlineUsers registry w)).
Proof. unfold exec at 1. now rewrite stream_consume_cons. Qed.

Lemma stream_consume_emissions userId sessionId items st w :
  done st = false ->
  emissions (fx (exec (stream_consume userId sessionId st items) w)) =
  emissions (fx w) ++ feed_notifications userId (messageId st) sessionId items.
Proof.
  revert st w. induction items as [|[registry event] items IH]; intros st w Hd.
  - cbn. now rewrite app_nil_r.
  - rewrite exec_stream_consume_cons.
    destruct (stream_event_spec userId sessionId st event (set_onlineUsers registry w) Hd)
      as ((Hi & Hd' & _) & _).
    rewrite IH by exact Hd'.
    rewrite stream_event_emissions by exact Hd. rewrite Hi.
    cbn [feed_notifications flat_map fst snd]. wsimpl.
    now rewrite <- app_assoc.
Qed.

(** X13. The notifications of one invocation of [startAIStream] are
    exactly these, in this order: [ai_started] if the user is online at
    the start; then, event by event in feed order, an [ai_chunk] for each
    non-empty delta, an [ai_tool_call] or an [ai_tool_result] for each tool
    event, each sent only if the user is online when that event is
    processed and to the connection registered at that moment; then
    [ai_complete] if the run succeeds and the user is online at the end.
    Nothing that was skipped while the user was offline is sent later. *)
Theorem startAIStream_notifications
  (w : World) (userId sessionId input : string) (eng : Engine) :
  emissions (fx (exec (startAIStream userId sessionId input eng) w)) =
  emissions (fx w) ++ run_notifications w userId sessionId eng.
Proof.
  unfold exec. rewrite startAIStream_eq.
  set (w0 := set_fx _ _). set (st0 := mkStream _ _ _).
  assert (He0 : emissions (fx w0) =
                emissions (fx w) ++
                notified (onlineUsers w) userId (ai_started (uuids w (drawn w)) sessionId)).
  { subst w0. wsimpl. rewrite !emissions_app. unfold started_fx, notified.
    destruct (onlineUsers w !! userId) as [sid|]; [destruct (truthy sid)|]; cbn;
      now rewrite ?app_nil_r. }
  unfold run_notifications. destruct eng as [err|items fin].
  - cbn [stream_resume]. rewrite stream_catch_eq. cbn [snd]. wsimpl.
    rewrite emissions_snoc_other by discriminate. now rewrite He0, app_nil_r.
  - rewrite stream_resume_yields. cbv zeta.
    pose proof (stream_consume_emissions userId sessionId items st0 w0 eq_refl) as Hc.
    destruct (stream_consume_spec userId sessionId items st0 w0 eq_refl)
      as ((Hid & _ & Htext) & _).
    cbn [textSoFar messageId st0] in Htext, Hid, Hc.
    change ("" +:+ received_text items) with (received_text items) in Htext.
    destruct fin as [err|err|registry finalText].
    + rewrite stream_catch_eq. cbn [snd]. wsimpl.
      rewrite emissions_snoc_other by discriminate.
      now rewrite Hc, He0, app_nil_r, <- app_assoc.
    + rewrite stream_catch_eq. cbn [snd]. wsimpl.
      rewrite emissions_snoc_other by discriminate.
      now rewrite Hc, He0, app_nil_r, <- app_assoc.
    + rewrite stream_finalize_eq. cbn [snd].
      rewrite (persist_then_notify_emissions userId). wsimpl.
      rewrite Hc, He0, Hid, Htext. now rewrite <- !app_assoc.
Qed.

Example offline_then_online_notifications :
  emissions (fx (exec (startAIStream "alice" "s1" "where to play"
                         (stream_yields
                            [ (∅, text_delta (Some "Go to "));
                              (∅, tool_call "get_weather");
                              (alice_registry, text_delta (Some "the Bund"));
                              (alice_registry, tool_result_event "get_weather") ]
                            (text_resolves ∅ ""))) boot)) =
  [ ("sock1", ai_chunk "a-uuid" "s1" "the Bund");
    ("sock1", ai_tool_result "s1" "get_weather") ].
Proof. reflexivity. Qed.

(** ** The records of an invocation *)

Lemma map_mark_nil now (l : list Message) : map (mark [] now) l = l.
Proof. apply map_mark_id. induction l; cbn; auto. Qed.

Lemma persist_then_notify_settles userId msg n w :
  Message.delivered msg = false ->
  exists ids,
    log (exec (persist_then_notify userId msg n) w) =
    map (mark ids (clock w (ticks w))) (log w)
    ++ [settled (onlineUsers w) userId (clock w (ticks w)) msg].
Proof.
  intros Hd. unfold settled.
  destruct (persist_then_notify_cases userId w) as [H | (sid & H & Hs)].
  - destruct (persist_then_notify_offline userId msg n w H) as (-> & _).
    exists []. rewrite map_mark_nil. now destruct H as [-> | ->].
  - destruct (persist_then_notify_online userId msg n w sid H Hs) as (-> & _).
    exists [Message.id msg]. rewrite H, (proj2 (truthy_true sid) Hs).
    rewrite map_app. cbn [map]. do 2 f_equal.
    unfold mark, pending, includes. cbn [existsb]. now rewrite String.eqb_refl, Hd.
Qed.

Lemma kind_settled registry userId now msg : kind (settled registry userId now msg) = kind msg.
Proof.
  unfold settled. destruct (registry !! userId) as [sid|]; [|reflexivity].
  now destruct (truthy sid).
Qed.

Section RunAdds.
Context (userId sessionId : string) (P : Message -> Prop)
        (good : gmap string string -> Prop).
Hypothesis P_mono : forall m m', persists_as m m' -> P m -> P m'.
Hypothesis P_new : forall registry now msg,
  good registry ->
  Message.to msg = userId -> Message.sessionId msg = sessionId ->
  Message.delivered msg = false -> Message.deliveredAt msg = None ->
  P (settled registry userId now msg).

Lemma Forall2_persists_P l l' : Forall2 persists_as l l' -> Forall P l -> Forall P l'.
Proof.
  induction 1 as [|m m' l l' Hm _ IH]; intros H; [constructor|].
  apply Forall_cons in H as [H1 H2]. constructor; eauto.
Qed.

Lemma run_adds_refl l : run_adds P l l [].
Proof.
  exists l, []. rewrite app_nil_r. repeat split;
    [apply Forall2_persists_refl | constructor].
Qed.

Lemma run_adds_trans l1 l2 l3 k1 k2 :
  run_adds P l1 l2 k1 -> run_adds P l2 l3 k2 -> run_adds P l1 l3 (k1 ++ k2).
Proof.
  intros (kept1 & a1 & -> & H1 & <- & Hp1) (kept2 & a2 & -> & H2 & <- & Hp2).
  apply Forall2_app_inv_l in H2 as (k21 & k22 & Hk & Ha & ->).
  exists k21, (k22 ++ a2). split; [now rewrite app_assoc|]. split; [|split].
  - eapply Forall2_persists_trans; eauto.
  - rewrite map_app. now rewrite (Forall2_persists_kind _ _ Ha).
  - apply Forall_app. split; [|exact Hp2]. eapply Forall2_persists_P; eauto.
Qed.

Lemma persist_then_notify_adds msg n w w0 :
  log w0 = log w -> good (onlineUsers w0) ->
  Message.to msg = userId -> Message.sessionId msg = sessionId ->
  Message.delivered msg = false -> Message.deliveredAt msg = None ->
  run_adds P (log w) (log (exec (persist_then_notify userId msg n) w0)) [kind msg].
Proof.
  intros Hl Hg Hto Hs Hd Hda.
  destruct (persist_then_notify_settles userId msg n w0 Hd) as (ids & ->).
  eexists _, [_]. split; [reflexivity|]. rewrite Hl.
  split; [apply Forall2_persists_mark|].
  split; [cbn; now rewrite kind_settled|].
  constructor; [now apply P_new | constructor].
Qed.

Lemma stream_event_adds st event w :
  (record_of event <> [] -> good (onlineUsers w)) ->
  run_adds P (log w) (log (exec (stream_event userId sessionId st event) w))
    (record_of event).
Proof.
  intros Hg. unfold exec. destruct event as [t|toolName|toolName| |ty].
  - cbn [record_of].
    assert (H : log (stream_event userId sessionId st (text_delta t) w).2 = log w).
    { cbn [stream_event]. destruct (negb (done st) && truthy (default "" t)); [|reflexivity].
      rewrite bind_run. unfold eval, exec. rewrite if_online_eq.
      destruct (onlineUsers w !! userId) as [sid|]; [destruct (truthy sid)|]; reflexivity. }
    rewrite H. apply run_adds_refl.
  - rewrite stream_event_tool_call. cbn [snd record_of].
    apply persist_then_notify_adds; try reflexivity. apply Hg. discriminate.
  - rewrite stream_event_tool_result. cbn [snd record_of].
    apply persist_then_notify_adds; try reflexivity. apply Hg. discriminate.
  - apply run_adds_refl.
  - apply run_adds_refl.
Qed.

Lemma stream_consume_adds items st w :
  Forall (fun it => record_of (snd it) <> [] -> good (fst it)) items ->
  run_adds P (log w) (log (exec (stream_consume userId sessionId st items) w))
    (tool_records items).
Proof.
  revert st w. induction items as [|[registry event] items IH]; intros st w Hg.
  - apply run_adds_refl.
  - rewrite exec_stream_consume_cons. apply Forall_cons in Hg as [Hg1 Hg].
    cbn [tool_records flat_map snd]. eapply run_adds_trans; [|apply IH; exact Hg].
    change (log w) with (log (set_onlineUsers registry w)).
    apply stream_event_adds. exact Hg1.
Qed.

Lemma startAIStream_adds input eng w :
  match eng with
  | stream_rejects _ => True
  | stream_yields items fin =>
      Forall (fun it => record_of (snd it) <> [] -> good (fst it)) items /\
      match fin with
      | text_resolves registry _ => good registry
      | feed_throws _ | text_rejects _ => True
      end
  end ->
  run_adds P (log w) (log (exec (startAIStream userId sessionId input eng) w))
    (expected_records eng).
Proof.
  intros Hg. unfold exec. rewrite startAIStream_eq.
  set (w0 := set_fx _ _). set (st0 := mkStream _ _ _).
  change (log w) with (log w0).
  destruct eng as [err|items fin].
  - cbn [stream_resume]. rewrite stream_catch_eq. cbn [snd expected_records].
    apply run_adds_refl.
  - destruct Hg as [Hitems Hfin]. rewrite stream_resume_yields. cbv zeta.
    pose proof (stream_consume_adds items st0 w0 Hitems) as Hc.
    destruct (stream_consume_spec userId sessionId items st0 w0 eq_refl)
      as ((Hid & _ & Htext) & _).
    cbn [textSoFar st0] in Htext.
    change ("" +:+ received_text items) with (received_text items) in Htext.
    cbn [expected_records].
    destruct fin as [err|err|registry finalText].
    + rewrite stream_catch_eq. cbn [snd]. rewrite app_nil_r. exact Hc.
    + rewrite stream_catch_eq. cbn [snd]. rewrite app_nil_r. exact Hc.
    + eapply run_adds_trans; [exact Hc|].
      rewrite stream_finalize_eq. cbn [snd]. rewrite Htext.
      apply persist_then_notify_adds; try reflexivity. exact Hfin.
Qed.
End RunAdds.





Lemma delivered_mono m m' :
  persists_as m m' -> Message.delivered m = true -> Message.delivered m' = true.
Proof. unfold persists_as. tauto. Qed.

Lemma delivered_settled_online userId registry now msg :
  online userId registry -> Message.delivered (settled registry userId now msg) = true.
Proof.
  intros (sid & H & Hs). unfold settled. now rewrite H, (proj2 (truthy_true sid) Hs).
Qed.

(** X15. When the user is online (on a connection with a non-empty id)
    at every tool event and, for a successful run, when the final text
    resolves, every record the invocation persists ends up delivered:
    the log afterwards is the log before, each record in a later state,
    followed by the records of the run, all with [delivered = true]. *)
Theorem online_invocation_delivers_its_records
  (w : World) (userId sessionId input : string) (eng : Engine) :
  online_when_persisting userId eng ->
  run_adds (fun m => Message.delivered m = true)
    (log w) (log (exec (startAIStream userId sessionId input eng) w))
    (expected_records eng).
Proof.
  intros H.
  apply (startAIStream_adds userId sessionId _ (online userId)).
  - apply delivered_mono.
  - intros registry now msg Hg _ _ _ _. now apply delivered_settled_online.
  - exact H.
Qed.

Lemma online_invocation_delivers_its_records_witness :
  run_adds (fun m => Message.delivered m = true)
    (log alice_in_s1)
    (log (exec (startAIStream "alice" "s1" "where to play" online_run) alice_in_s1))
    (expected_records online_run).
Proof.
  apply (online_invocation_delivers_its_records alice_in_s1 "alice" "s1" "where to play"
           online_run).
  assert (Ho : online "alice" alice_registry).
  { exists "sock1". split; [reflexivity | discriminate]. }
  split; [|exact Ho]. repeat constructor; intros _; exact Ho.
Defined.

(** ** The server as a reactive system *)

Lemma same_outside_store_refl w : same_outside_store w w.
Proof. repeat split. Qed.

Lemma same_outside_store_trans w1 w2 w3 :
  same_outside_store w1 w2 -> same_outside_store w2 w3 -> same_outside_store w1 w3.
Proof.
  unfold same_outside_store. intros (-> & -> & -> & -> & ->) (-> & -> & -> & -> & ->).
  repeat split.
Qed.

Lemma markMessagesDelivered_frame ids w :
  same_outside_store w (exec (markMessagesDelivered ids) w) /\
  drawn (exec (markMessagesDelivered ids) w) = drawn w.
Proof.
  destruct ids as [|i ids]; [repeat split|].
  unfold exec. rewrite markMessagesDelivered_eq by discriminate. cbn [snd].
  destruct (existsb _ (log w)); repeat split.
Qed.

Lemma map_id_mark ids now l :
  map Message.id (map (mark ids now) l) = map Message.id l.
Proof.
  induction l as [|m l IH]; [reflexivity|]. cbn [map]. rewrite IH. f_equal.
  unfold mark, stamped. now destruct (pending ids m).
Qed.

Lemma persist_then_notify_frame userId msg n w :
  let w' := exec (persist_then_notify userId msg n) w in
  same_outside_store w w' /\ drawn w' = drawn w /\
  map Message.id (log w') = map Message.id (log w) ++ [Message.id msg].
Proof.
  cbv zeta. unfold persist_then_notify, exec. mstep. rewrite if_online_eq. wsimpl.
  destruct (onlineUsers w !! userId) as [sid|]; [destruct (truthy sid)|].
  - mstep.
    match goal with |- context [markMessagesDelivered ?ids ?w1] =>
      destruct (markMessagesDelivered_frame ids w1) as (Hf & Hd);
      pose proof (log_markMessagesDelivered ids w1) as Hl
    end.
    unfold exec in Hf, Hd, Hl. rewrite Hd, Hl. wsimpl.
    split; [|split; [reflexivity|]].
    + eapply same_outside_store_trans; [|exact Hf]. repeat split.
    + now rewrite map_id_mark, map_app.
  - cbn [snd]. wsimpl. rewrite map_app. repeat split.
  - cbn [snd]. wsimpl. rewrite map_app. repeat split.
Qed.

Lemma stream_event_frame userId sessionId st event w :
  let st' := eval (stream_event userId sessionId st event) w in
  let w' := exec (stream_event userId sessionId st event) w in
  same_outside_store w w' /\
  drawn w' = (drawn w + length (record_of event))%nat /\
  messageId st' = messageId st /\ done st' = done st /\
  map Message.id (log w') =
    map Message.id (log w) ++ map (fun _ => uuids w (drawn w)) (record_of event).
Proof.
  cbv zeta. unfold eval, exec. destruct event as [t|toolName|toolName| |ty].
  - cbn [stream_event record_of length map].
    rewrite Nat.add_0_r, app_nil_r.
    destruct (negb (done st) && truthy (default "" t)); [|repeat split].
    rewrite bind_run. unfold eval, exec. rewrite if_online_eq, ret_eq.
    destruct (onlineUsers w !! userId) as [sid|]; [destruct (truthy sid)|]; repeat split.
  - rewrite stream_event_tool_call. cbn [fst snd record_of length map].
    match goal with |- context [exec (persist_then_notify ?u ?m ?n) ?w1] =>
      destruct (persist_then_notify_frame u m n w1) as (Hf & Hd & Hl)
    end.
    rewrite Hd, Hl. split; [|repeat split; cbn; lia].
    eapply same_outside_store_trans; [|exact Hf]. repeat split.
  - rewrite stream_event_tool_result. cbn [fst snd record_of length map].
    match goal with |- context [exec (persist_then_notify ?u ?m ?n) ?w1] =>
      destruct (persist_then_notify_frame u m n w1) as (Hf & Hd & Hl)
    end.
    rewrite Hd, Hl. split; [|repeat split; cbn; lia].
    eapply same_outside_store_trans; [|exact Hf]. repeat split.
  - cbn. rewrite Nat.add_0_r, app_nil_r. repeat split.
  - cbn. rewrite Nat.add_0_r, app_nil_r. repeat split.
Qed.

Lemma stream_finalize_frame userId sessionId st finalText w :
  let w' := exec (stream_finalize userId sessionId st finalText) w in
  same_outside_store w w' /\ drawn w' = drawn w /\
  map Message.id (log w') = map Message.id (log w) ++ [messageId st].
Proof.
  cbv zeta. unfold exec. rewrite stream_finalize_eq. cbn [snd].
  match goal with |- context [exec (persist_then_notify ?u ?m ?n) ?w1] =>
    destruct (persist_then_notify_frame u m n w1) as (Hf & Hd & Hl)
  end.
  rewrite Hd, Hl. split; [|repeat split].
  eapply same_outside_store_trans; [|exact Hf]. repeat split.
Qed.

(** What each handler leaves alone. *)
Lemma register_frame socket userId w :
  let w' := exec (register socket userId) w in
  log w' = log w /\ directory w' = directory w /\
  uuids w' = uuids w /\ drawn w' = drawn w /\ clock w' = clock w.
Proof.
  cbv zeta. destruct (String.eqb_spec userId "") as [->|Hu]; [repeat split|].
  unfold exec. rewrite register_eq by exact Hu. repeat split.
Qed.

Lemma session_open_frame socket sessionId w :
  let w' := exec (session_open socket sessionId) w in
  log w' = log w /\ directory w' = directory w /\ same_outside_store w w' /\
  drawn w' = drawn w.
Proof.
  cbv zeta. unfold exec.
  destruct (intent_cases w socket sessionId) as [(u & Hs & Hu & Hn) | H].
  - rewrite (session_open_eq w socket u sessionId) by assumption. repeat split.
  - destruct (intents_dropped w socket sessionId "" None H) as (_ & -> & _).
    repeat split.
Qed.

Lemma session_create_frame socket sessionId title w :
  let w' := exec (session_create socket sessionId title) w in
  log w' = log w /\ socketData w' = socketData w /\ onlineUsers w' = onlineUsers w /\
  uuids w' = uuids w /\ drawn w' = drawn w /\ clock w' = clock w /\
  (directory w' = directory w \/ exists item, directory w' = upserted item (directory w)).
Proof.
  cbv zeta. unfold exec.
  destruct (intent_cases w socket sessionId) as [(u & Hs & Hu & Hn) | H].
  - rewrite (session_create_eq w socket u sessionId title) by assumption.
    cbn [snd]. wsimpl. repeat split. right. eauto.
  - destruct (intents_dropped w socket sessionId "" title H) as (-> & _).
    repeat split. now left.
Qed.

Lemma disconnect_frame socket w :
  let w' := exec (disconnect socket) w in
  log w' = log w /\ directory w' = directory w /\ socketData w' = socketData w /\
  uuids w' = uuids w /\ drawn w' = drawn w /\ clock w' = clock w /\ fx w' = fx w.
Proof.
  cbv zeta. unfold exec. rewrite disconnect_eq. cbn [snd].
  destruct (socketData w !! socket) as [u|]; [|repeat split].
  destruct (truthy u && bool_decide _); repeat split.
Qed.

(** The two ways an [ai_send] goes. *)
Lemma ai_send_cases socket sessionId txt w :
  ai_send socket sessionId txt w = (None, w) \/
  exists from,
    socketData w !! socket = Some from /\ from <> "" /\ sessionId <> "" /\ txt <> "" /\
    let w' := exec (ai_send socket sessionId txt) w in
    eval (ai_send socket sessionId txt) w = Some (mkStream (uuids w (S (drawn w))) "" false) /\
    log w' = log w ++ [Message.mk (uuids w (drawn w)) from sessionId (clock w (ticks w))
                         true (Some (clock w (S (ticks w)))) user (text txt)] /\
    drawn w' = S (S (drawn w)) /\ uuids w' = uuids w /\ clock w' = clock w /\
    (directory w' = directory w \/ exists item, directory w' = upserted item (directory w)).
Proof.
  destruct (intent_cases w socket sessionId) as [(u & Hs & Hu & Hn) | H].
  - destruct (String.eqb_spec txt "") as [->|Ht].
    + left. apply (ai_send_invalid w socket u); [exact Hs|].
      now rewrite andb_false_r.
    + right. exists u. do 4 (split; [assumption|]). cbv zeta. unfold eval, exec.
      rewrite (ai_send_eq w socket u sessionId txt) by assumption. cbn [fst snd].
      destruct (session_with sessionId (listed u (directory w))) as [target|]; wsimpl;
        repeat split; [right; eauto | now left].
  - left. now destruct (intents_dropped w socket sessionId txt None H) as (_ & _ & -> & _).
Qed.

Lemma run_system_cons a l s : run_system (a :: l) s = run_system l (step a s).
Proof. reflexivity. Qed.

Lemma run_appends_log_grows l l' kinds : run_appends l l' kinds -> log_grows l l'.
Proof. intros (kept & added & H & H' & _). exists kept, added. auto. Qed.

Lemma run_adds_log_grows P l l' kinds : run_adds P l l' kinds -> log_grows l l'.
Proof. intros (kept & added & H & H' & _). exists kept, added. auto. Qed.

Lemma log_grows_eq l l' : l' = l -> log_grows l l'.
Proof. intros ->. apply log_grows_refl. Qed.

Lemma step_log_grows a s : log_grows (log (world s)) (log (world (step a s))).
Proof.
  destruct a as [socket userId|socket sessionId title|socket sessionId|socket sessionId txt
                |socket|k event|k finalText|k err]; cbn [step].
  - apply log_grows_eq, register_frame.
  - apply log_grows_eq, session_create_frame.
  - apply log_grows_eq, session_open_frame.
  - assert (H : log_grows (log (world s)) (log (exec (ai_send socket sessionId txt) (world s)))).
    { destruct (ai_send_cases socket sessionId txt (world s)) as [H | (from & _ & _ & _ & _ & H)].
      - unfold exec. rewrite H. apply log_grows_refl.
      - cbv zeta in H. destruct H as (_ & -> & _). apply log_grows_app. }
    destruct (eval _ _) as [st|]; [destruct (socketData _ !! _)|]; exact H.
  - apply log_grows_eq, disconnect_frame.
  - destruct (flights s !! k) as [f|]; [|apply log_grows_refl]. cbn [world].
    eapply run_adds_log_grows.
    apply (stream_event_adds (flight_user f) (flight_session f) (fun _ => True) (fun _ => True));
      auto.
  - destruct (flights s !! k) as [f|]; [|apply log_grows_refl]. cbn [world].
    unfold exec. rewrite stream_finalize_eq. cbn [snd].
    eapply run_appends_log_grows. apply persist_then_notify_log_from; reflexivity.
  - destruct (flights s !! k) as [f|]; [|apply log_grows_refl]. cbn [world].
    unfold exec. rewrite stream_catch_eq. apply log_grows_refl.
Qed.

(** X16. The message log only grows, whatever the server does and in
    whatever order: for every sequence of intents, disconnections and
    resumptions of the invocations in flight, interleaved at will, every
    record that was in the log is still there at its place with the same
    id, owner, session, timestamp, role and body, a delivered record is
    still delivered, and new records come after the old ones. *)
Theorem system_log_only_grows (l : list Action) (s : System) :
  log_grows (log (world s)) (log (world (run_system l s))).
Proof.
  revert s. induction l as [|a l IH]; intros s.
  - apply log_grows_refl.
  - rewrite run_system_cons.
    eapply log_grows_trans; [apply step_log_grows | apply IH].
Qed.

Lemma step_directory_ids a s :
  NoDup (map SessionItem.id (directory (world s))) ->
  NoDup (map SessionItem.id (directory (world (step a s)))).
Proof.
  intros Hnd.
  destruct a as [socket userId|socket sessionId title|socket sessionId|socket sessionId txt
                |socket|k event|k finalText|k err]; cbn [step].
  - cbn [world]. now destruct (register_frame socket userId (world s)) as (_ & -> & _).
  - cbn [world].
    destruct (session_create_frame socket sessionId title (world s))
      as (_ & _ & _ & _ & _ & _ & [-> | (item & ->)]); [exact Hnd | now apply upserted_NoDup].
  - cbn [world]. now destruct (session_open_frame socket sessionId (world s)) as (_ & -> & _).
  - assert (H : NoDup (map SessionItem.id
                         (directory (exec (ai_send socket sessionId txt) (world s))))).
    { destruct (ai_send_cases socket sessionId txt (world s)) as [H | (from & _ & _ & _ & _ & H)].
      - unfold exec. now rewrite H.
      - cbv zeta in H. destruct H as (_ & _ & _ & _ & _ & [-> | (item & ->)]);
          [exact Hnd | now apply upserted_NoDup]. }
    destruct (eval _ _) as [st|]; [destruct (socketData _ !! _)|]; exact H.
  - cbn [world]. now destruct (disconnect_frame socket (world s)) as (_ & -> & _).
  - destruct (flights s !! k) as [f|]; [|exact Hnd]. cbn [world].
    now destruct (stream_event_frame (flight_user f) (flight_session f) (flight_stream f)
                    event (world s)) as ((-> & _) & _).
  - destruct (flights s !! k) as [f|]; [|exact Hnd]. cbn [world].
    now destruct (stream_finalize_frame (flight_user f) (flight_session f) (flight_stream f)
                    finalText (world s)) as ((-> & _) & _).
  - destruct (flights s !! k) as [f|]; [|exact Hnd]. cbn [world].
    unfold exec. now rewrite stream_catch_eq.
Qed.

(** X17. Session ids stay distinct. If no two sessions of the directory
    share an id, then after any sequence of intents, disconnections and
    resumptions of invocations, interleaved at will, still no two sessions
    share an id: in particular no user ever has two sessions of one id. *)
Theorem system_keeps_session_ids_distinct (l : list Action) (s : System) :
  NoDup (map SessionItem.id (directory (world s))) ->
  NoDup (map SessionItem.id (directory (world (run_system l s)))).
Proof.
  revert s. induction l as [|a l IH]; intros s H; [exact H|].
  rewrite run_system_cons. apply IH. now apply step_directory_ids.
Qed.

Lemma system_keeps_session_ids_distinct_witness :
  NoDup (map SessionItem.id (directory (world (run_system busy_day boot_system)))).
Proof.
  apply (system_keeps_session_ids_distinct busy_day boot_system). constructor.
Defined.

Example busy_day_run :
  let s := run_system busy_day boot_system in
  map (fun m => (Message.id m, Message.to m, Message.role m, Message.delivered m))
      (log (world s)) =
  [ ("a-uuid", "alice", user, true);
    ("c-uuid", "alice", system, true);
    ("d-uuid", "bob", user, true);
    ("f-uuid", "bob", system, true);
    ("b-uuid", "alice", ai, false) ] /\
  map SessionItem.id (directory (world s)) = ["s1"; "s2"] /\
  flights s = [] /\
  last (fx (world s)) = Some (ConsoleError "boom").
Proof. repeat split; reflexivity. Qed.

(** *** Message ids *)

Lemma NoDup_map_inj_on {A B} (f : A -> B) (l : list A) :
  (forall x y, In x l -> In y l -> f x = f y -> x = y) -> NoDup l -> NoDup (map f l).
Proof.
  induction l as [|a l IH]; intros Hinj Hnd; [constructor|].
  apply NoDup_cons in Hnd as [Ha Hl]. cbn [map]. apply NoDup_cons. split.
  - intros Hin. apply list_elem_of_In, in_map_iff in Hin as (b & Hb & Hin).
    apply Ha, list_elem_of_In. assert (b = a) as <-; [|exact Hin].
    apply Hinj; [now right | now left | exact Hb].
  - apply IH; [|exact Hl]. intros x y Hx Hy. apply Hinj; now right.
Qed.

Lemma fresh_ids_extend s s' n removed :
  uuids (world s') = uuids (world s) ->
  drawn (world s') = (drawn (world s) + n)%nat ->
  Permutation (ids_in_use s' ++ removed)
    (ids_in_use s ++ map (uuids (world s)) (seq (drawn (world s)) n)) ->
  fresh_ids s -> fresh_ids s'.
Proof.
  intros Hu Hd Hperm (Hnd & Hinj & Hfresh).
  set (d := drawn (world s)) in *. set (uu := uuids (world s)) in *.
  assert (Hall : NoDup (ids_in_use s ++ map uu (seq d n))).
  { apply NoDup_app. split; [exact Hnd|]. split.
    - intros x Hx Hx'. apply list_elem_of_In in Hx.
      apply list_elem_of_In, in_map_iff in Hx' as (i & <- & Hi). apply in_seq in Hi.
      apply (Hfresh i); [lia | exact Hx].
    - apply NoDup_map_inj_on; [|apply NoDup_seq].
      intros x y Hx Hy. apply in_seq in Hx, Hy. apply Hinj; lia. }
  split; [|split].
  - rewrite <- Hperm in Hall. now apply NoDup_app in Hall as [Hall _].
  - rewrite Hu, Hd. intros i j Hi Hj. apply Hinj; lia.
  - rewrite Hu, Hd. intros i Hi Hin.
    assert (Hin' : In (uu i) (ids_in_use s ++ map uu (seq d n))).
    { eapply Permutation_in; [exact Hperm|]. apply in_or_app. now left. }
    apply in_app_or in Hin' as [Hin'|Hin'].
    + apply (Hfresh i); [lia | exact Hin'].
    + apply in_map_iff in Hin' as (j & Hj & Hjs). apply in_seq in Hjs.
      assert (j = i) by (apply Hinj; [lia | lia | exact Hj]). lia.
Qed.

Lemma fresh_ids_same s s' :
  uuids (world s') = uuids (world s) -> drawn (world s') = drawn (world s) ->
  ids_in_use s' = ids_in_use s -> fresh_ids s -> fresh_ids s'.
Proof.
  intros Hu Hd Hi. apply (fresh_ids_extend s s' 0 []); [exact Hu | lia |].
  cbn. rewrite !app_nil_r, Hi. reflexivity.
Qed.

Lemma map_insert_same {A B} (g : A -> B) (l : list A) k x y :
  l !! k = Some x -> g y = g x -> map g (<[k := y]> l) = map g l.
Proof.
  revert k. induction l as [|z l IH]; intros k Hl Hg; [reflexivity|].
  destruct k as [|k]; cbn in *.
  - injection Hl as ->. now rewrite Hg.
  - f_equal. now apply IH.
Qed.

Lemma map_delete_Permutation {A B} (g : A -> B) (l : list A) k x :
  l !! k = Some x -> Permutation (g x :: map g (delete k l)) (map g l).
Proof.
  intros H. symmetry. change (g x :: map g (delete k l)) with (map g (x :: delete k l)).
  apply Permutation_map. now apply delete_Permutation.
Qed.

Lemma drawn_ids_of_event w event :
  map (fun _ : Role * MessageBody => uuids w (drawn w)) (record_of event) =
  map (uuids w) (seq (drawn w) (length (record_of event))).
Proof. destruct event; reflexivity. Qed.

Lemma step_fresh_ids a s : fresh_ids s -> fresh_ids (step a s).
Proof.
  destruct a as [socket userId|socket sessionId title|socket sessionId|socket sessionId txt
                |socket|k event|k finalText|k err]; cbn [step].
  - destruct (register_frame socket userId (world s)) as (Hl & _ & Hu & Hd & _).
    apply fresh_ids_same; cbn [world flights]; auto. unfold ids_in_use. cbn. now rewrite Hl.
  - destruct (session_create_frame socket sessionId title (world s))
      as (Hl & _ & _ & Hu & Hd & _).
    apply fresh_ids_same; cbn [world flights]; auto. unfold ids_in_use. cbn. now rewrite Hl.
  - destruct (session_open_frame socket sessionId (world s))
      as (Hl & _ & (_ & _ & _ & Hu & _) & Hd).
    apply fresh_ids_same; cbn [world flights]; auto. unfold ids_in_use. cbn. now rewrite Hl.
  - destruct (ai_send_cases socket sessionId txt (world s))
      as [H | (from & Hs & _ & _ & _ & H)].
    + unfold eval, exec. rewrite H. cbn [fst snd]. now destruct s.
    + cbv zeta in H. destruct H as (He & Hl & Hd & Hu & _). rewrite He, Hs.
      apply (fresh_ids_extend s _ 2 []); cbn [world flights]; [exact Hu | lia |].
      unfold ids_in_use. cbn [world flights]. rewrite Hl, !map_app. cbn.
      rewrite app_nil_r, <- !app_assoc. apply Permutation_app_head. cbn.
      set (MF := map _ (flights s)).
      transitivity ([uuids (world s) (drawn (world s));
                     uuids (world s) (S (drawn (world s)))] ++ MF);
        [|apply Permutation_app_comm].
      cbn. apply perm_skip. symmetry. apply Permutation_cons_append.
  - destruct (disconnect_frame socket (world s)) as (Hl & _ & _ & Hu & Hd & _).
    apply fresh_ids_same; cbn [world flights]; auto. unfold ids_in_use. cbn. now rewrite Hl.
  - destruct (flights s !! k) as [f|] eqn:Hk; [|auto].
    destruct (stream_event_frame (flight_user f) (flight_session f) (flight_stream f)
                event (world s)) as ((_ & _ & _ & Hu & _) & Hd & Hm & _ & Hl).
    apply (fresh_ids_extend s _ (length (record_of event)) []); cbn [world flights];
      [exact Hu | exact Hd |].
    unfold ids_in_use. cbn [world flights]. rewrite Hl, drawn_ids_of_event.
    rewrite (map_insert_same _ _ k f) by (cbn; auto).
    rewrite app_nil_r, <- !app_assoc. apply Permutation_app_head, Permutation_app_comm.
  - destruct (flights s !! k) as [f|] eqn:Hk; [|auto].
    destruct (stream_finalize_frame (flight_user f) (flight_session f) (flight_stream f)
                finalText (world s)) as ((_ & _ & _ & Hu & _) & Hd & Hl).
    apply (fresh_ids_extend s _ 0 []); cbn [world flights]; [exact Hu | lia |].
    unfold ids_in_use. cbn [world flights seq map]. rewrite Hl, !app_nil_r, <- app_assoc.
    apply Permutation_app_head. cbn.
    apply (map_delete_Permutation (fun f => messageId (flight_stream f)) _ k f Hk).
  - destruct (flights s !! k) as [f|] eqn:Hk; [|auto].
    apply (fresh_ids_extend s _ 0 [messageId (flight_stream f)]); cbn [world flights].
    + unfold exec. now rewrite stream_catch_eq.
    + unfold exec. rewrite stream_catch_eq. cbn. lia.
    + unfold ids_in_use. cbn [world flights seq map]. unfold exec.
      rewrite stream_catch_eq. cbn [snd]. wsimpl. rewrite app_nil_r, <- app_assoc.
      apply Permutation_app_head. rewrite Permutation_app_comm. cbn.
      apply (map_delete_Permutation (fun f => messageId (flight_stream f)) _ k f Hk).
Qed.

(** X18. Message ids stay distinct under concurrency. If [randomUUID]
    never repeats itself (the ids in use are distinct, and those still to
    be drawn are distinct from each other and from those in use), then
    after any sequence of intents, disconnections and resumptions of
    invocations, interleaved at will, the same holds again; in particular
    all records of the log have distinct ids, and no record has the
    artifact id of an invocation still in flight. *)
Theorem system_keeps_message_ids_distinct (l : list Action) (s : System) :
  fresh_ids s ->
  fresh_ids (run_system l s) /\
  NoDup (map Message.id (log (world (run_system l s)))) /\
  (forall f, In f (flights (run_system l s)) ->
     ~ In (messageId (flight_stream f)) (map Message.id (log (world (run_system l s))))).
Proof.
  intros H.
  assert (Hf : fresh_ids (run_system l s)).
  { revert s H. induction l as [|a l IH]; intros s H; [exact H|].
    rewrite run_system_cons. apply IH. now apply step_fresh_ids. }
  split; [exact Hf|]. destruct Hf as (Hnd & _). unfold ids_in_use in Hnd.
  apply NoDup_app in Hnd as (Hlog & Hdisj & _). split; [exact Hlog|].
  intros f Hin Hin'. apply (Hdisj (messageId (flight_stream f))).
  - now apply list_elem_of_In.
  - apply list_elem_of_In, in_map_iff. eauto.
Qed.

Lemma tally_inj i j : tally i = tally j -> i = j.
Proof.
  revert j. induction i as [|i IH]; intros [|j] H; try discriminate; [reflexivity|].
  cbn in H. injection H as H. f_equal. now apply IH.
Qed.

Lemma tally_system_fresh : fresh_ids tally_system.
Proof.
  split; [constructor|]. split.
  - intros i j _ _ H. cbn in H. unfold tally_uuid in H. cbn in H.
    injection H as H. now apply tally_inj.
  - intros i _ [].
Qed.

Lemma system_keeps_message_ids_distinct_witness :
  fresh_ids (run_system busy_day tally_system) /\
  NoDup (map Message.id (log (world (run_system busy_day tally_system)))) /\
  (forall f, In f (flights (run_system busy_day tally_system)) ->
     ~ In (messageId (flight_stream f))
          (map Message.id (log (world (run_system busy_day tally_system))))).
Proof.
  apply (system_keeps_message_ids_distinct busy_day tally_system).
  exact tally_system_fresh.
Defined.

(** *** Delivery flags *)

Lemma flags_agree_mark ids now m : flags_agree m -> flags_agree (mark ids now m).
Proof.
  unfold mark. destruct (pending ids m); [|auto].
  intros _. unfold flags_agree, stamped. cbn. split; eauto.
Qed.

Lemma flags_agree_settled registry userId now msg :
  Message.delivered msg = false -> Message.deliveredAt msg = None ->
  flags_agree (settled registry userId now msg).
Proof.
  intros Hd Ha. unfold settled.
  assert (H0 : flags_agree msg).
  { unfold flags_agree. rewrite Hd, Ha. split; [discriminate | intros [x Hx]; discriminate]. }
  destruct (registry !! userId) as [sid|]; [|exact H0].
  destruct (truthy sid); [|exact H0]. unfold flags_agree, stamped. cbn. split; eauto.
Qed.

Lemma persist_then_notify_flags userId msg n w :
  Message.delivered msg = false -> Message.deliveredAt msg = None ->
  Forall flags_agree (log w) ->
  Forall flags_agree (log (exec (persist_then_notify userId msg n) w)).
Proof.
  intros Hd Ha H.
  destruct (persist_then_notify_settles userId msg n w Hd) as (ids & ->).
  apply Forall_app. split.
  - induction H; cbn; constructor; auto using flags_agree_mark.
  - constructor; [now apply flags_agree_settled | constructor].
Qed.

Lemma stream_event_text_log userId sessionId st t w :
  log (exec (stream_event userId sessionId st (text_delta t)) w) = log w.
Proof.
  unfold exec. cbn [stream_event].
  destruct (negb (done st) && truthy (default "" t)); [|reflexivity].
  rewrite bind_run. unfold eval, exec. rewrite if_online_eq.
  destruct (onlineUsers w !! userId) as [sid|]; [destruct (truthy sid)|]; reflexivity.
Qed.

Lemma step_flags_agree a s :
  Forall flags_agree (log (world s)) -> Forall flags_agree (log (world (step a s))).
Proof.
  intros H.
  destruct a as [socket userId|socket sessionId title|socket sessionId|socket sessionId txt
                |socket|k event|k finalText|k err]; cbn [step].
  - cbn [world]. now destruct (register_frame socket userId (world s)) as (-> & _).
  - cbn [world]. now destruct (session_create_frame socket sessionId title (world s)) as (-> & _).
  - cbn [world]. now destruct (session_open_frame socket sessionId (world s)) as (-> & _).
  - assert (H' : Forall flags_agree (log (exec (ai_send socket sessionId txt) (world s)))).
    { destruct (ai_send_cases socket sessionId txt (world s)) as [E | (from & _ & _ & _ & _ & E)].
      - unfold exec. now rewrite E.
      - cbv zeta in E. destruct E as (_ & -> & _). apply Forall_app. split; [exact H|].
        constructor; [|constructor]. unfold flags_agree. cbn. split; eauto. }
    destruct (eval _ _) as [st|]; [destruct (socketData _ !! _)|]; exact H'.
  - cbn [world]. now destruct (disconnect_frame socket (world s)) as (-> & _).
  - destruct (flights s !! k) as [f|]; [|exact H]. cbn [world].
    destruct event as [t|toolName|toolName| |ty].
    + now rewrite stream_event_text_log.
    + unfold exec. rewrite stream_event_tool_call. cbn [snd].
      now apply persist_then_notify_flags.
    + unfold exec. rewrite stream_event_tool_result. cbn [snd].
      now apply persist_then_notify_flags.
    + exact H.
    + exact H.
  - destruct (flights s !! k) as [f|]; [|exact H]. cbn [world].
    unfold exec. rewrite stream_finalize_eq. cbn [snd].
    now apply persist_then_notify_flags.
  - destruct (flights s !! k) as [f|]; [|exact H]. cbn [world].
    unfold exec. now rewrite stream_catch_eq.
Qed.

(** X19. [delivered] and [deliveredAt] go together. If every record of
    the log is delivered exactly when it has a [deliveredAt] stamp, this
    is still so after any sequence of intents, disconnections and
    resumptions of invocations, interleaved at will. *)
Theorem system_keeps_delivery_flags_agreeing (l : list Action) (s : System) :
  Forall flags_agree (log (world s)) ->
  Forall flags_agree (log (world (run_system l s))).
Proof.
  revert s. induction l as [|a l IH]; intros s H; [exact H|].
  rewrite run_system_cons. apply IH. now apply step_flags_agree.
Qed.

Lemma system_keeps_delivery_flags_agreeing_witness :
  Forall flags_agree (log (world (run_system busy_day boot_system))).
Proof.
  apply (system_keeps_delivery_flags_agreeing busy_day boot_system). constructor.
Defined.

(** *** Escaping *)

Lemma replace_all_app c r a b :
  replace_all c r (a +:+ b) = replace_all c r a +:+ replace_all c r b.
Proof.
  induction a as [|x a IH]; [reflexivity|].
  change (String x a +:+ b) with (String x (a +:+ b)). cbn [replace_all].
  destruct (Ascii.eqb x c).
  - now rewrite IH, append_assoc.
  - now rewrite IH.
Qed.

Lemma escapeHtml_app a b : escapeHtml (a +:+ b) = escapeHtml a +:+ escapeHtml b.
Proof. unfold escapeHtml. now rewrite !replace_all_app. Qed.

Lemma escapeHtml_cons c s : escapeHtml (String c s) = entity c +:+ escapeHtml s.
Proof.
  change (String c s) with (String c "" +:+ s). rewrite escapeHtml_app. f_equal.
  unfold entity.
  destruct (Ascii.eqb_spec c "&") as [->|H1]; [reflexivity|].
  destruct (Ascii.eqb_spec c "<") as [->|H2]; [reflexivity|].
  destruct (Ascii.eqb_spec c ">") as [->|H3]; [reflexivity|].
  destruct (Ascii.eqb_spec c "034") as [->|H4]; [reflexivity|].
  destruct (Ascii.eqb_spec c "'") as [->|H5]; [reflexivity|].
  unfold escapeHtml. cbn [replace_all].
  apply Ascii.eqb_neq in H1, H2, H3, H4, H5.
  rewrite H1. cbn [replace_all]. rewrite H2. cbn [replace_all]. rewrite H3.
  cbn [replace_all]. rewrite H4. cbn [replace_all]. now rewrite H5.
Qed.

(** X20. The five replacements of [escapeHtml] act as one pass over the
    text: each character is replaced by its entity ([&], [<], [>], the
    double quote and the single quote) or kept, independently of its
    neighbours. No pass escapes again what an earlier pass produced. *)
Theorem escapeHtml_is_one_pass :
  escapeHtml "" = "" /\
  forall c s, escapeHtml (String c s) = entity c +:+ escapeHtml s.
Proof. split; [reflexivity | exact escapeHtml_cons]. Qed.

Lemma list_ascii_of_string_app a b :
  list_ascii_of_string (a +:+ b) = list_ascii_of_string a ++ list_ascii_of_string b.
Proof.
  induction a as [|x a IH]; [reflexivity|].
  change (String x a +:+ b) with (String x (a +:+ b)). cbn. now rewrite IH.
Qed.

Lemma entity_no_markup c : Forall (fun x => markup x = false) (list_ascii_of_string (entity c)).
Proof.
  unfold entity.
  destruct (Ascii.eqb c "&"); [repeat constructor|].
  destruct (Ascii.eqb c "<") eqn:E1; [repeat constructor|].
  destruct (Ascii.eqb c ">") eqn:E2; [repeat constructor|].
  destruct (Ascii.eqb c "034") eqn:E3; [repeat constructor|].
  destruct (Ascii.eqb c "'") eqn:E4; [repeat constructor|].
  cbn. constructor; [|constructor]. unfold markup. now rewrite E1, E2, E3, E4.
Qed.

(** X21. The result of [escapeHtml] contains no [<], no [>], no double
    quote and no single quote, whatever the text. *)
Theorem escapeHtml_leaves_no_markup (str : string) :
  Forall (fun c => markup c = false) (list_ascii_of_string (escapeHtml str)).
Proof.
  induction str as [|c s IH]; [constructor|].
  rewrite escapeHtml_cons, list_ascii_of_string_app.
  apply Forall_app. split; [apply entity_no_markup | exact IH].
Qed.

(** X22. Escaping chunk by chunk is escaping the whole: the escaped
    deltas, joined, are the escaped form of the joined deltas. (What the
    browser makes of the markup is outside the model.) *)
Theorem escapeHtml_of_chunks (chunks : list string) :
  escapeHtml (join chunks) = join (map escapeHtml chunks).
Proof.
  induction chunks as [|d l IH]; [reflexivity|].
  cbn [join map]. now rewrite escapeHtml_app, IH.
Qed.

Lemma entity_cases (c : ascii) :
  (c = "&"%char /\ entity c = "&amp;") \/ (c = "<"%char /\ entity c = "&lt;") \/
  (c = ">"%char /\ entity c = "&gt;") \/ (c = "034"%char /\ entity c = "&quot;") \/
  (c = "'"%char /\ entity c = "&#039;") \/ (c <> "&"%char /\ entity c = String c "").
Proof.
  unfold entity.
  destruct (Ascii.eqb_spec c "&") as [->|H1]; [now left|].
  destruct (Ascii.eqb_spec c "<") as [->|H2]; [now right; left|].
  destruct (Ascii.eqb_spec c ">") as [->|H3]; [now right; right; left|].
  destruct (Ascii.eqb_spec c "034") as [->|H4]; [now right; right; right; left|].
  destruct (Ascii.eqb_spec c "'") as [->|H5]; [now right; right; right; right; left|].
  now right; right; right; right; right.
Qed.

Lemma entity_prefix_free c d x y :
  entity c +:+ x = entity d +:+ y -> c = d /\ x = y.
Proof.
  destruct (entity_cases c) as [(-> & ->)|[(-> & ->)|[(-> & ->)|[(-> & ->)|[(-> & ->)|(Hc & ->)]]]]];
  destruct (entity_cases d) as [(-> & ->)|[(-> & ->)|[(-> & ->)|[(-> & ->)|[(-> & ->)|(Hd & ->)]]]]];
  cbn; intros H; try discriminate H; try (injection H as H; now subst);
  try (injection H as H; congruence).
Qed.

(** X23. [escapeHtml] loses nothing: two texts with the same escaped
    form are the same text. *)
Theorem escapeHtml_injective (a b : string) :
  escapeHtml a = escapeHtml b -> a = b.
Proof.
  revert b. induction a as [|c a IH]; intros [|d b] H.
  - reflexivity.
  - rewrite escapeHtml_cons in H. cbn in H.
    destruct (entity_cases d) as [(_ & E)|[(_ & E)|[(_ & E)|[(_ & E)|[(_ & E)|(_ & E)]]]]];
      rewrite E in H; discriminate H.
  - rewrite escapeHtml_cons in H. cbn in H.
    destruct (entity_cases c) as [(_ & E)|[(_ & E)|[(_ & E)|[(_ & E)|[(_ & E)|(_ & E)]]]]];
      rewrite E in H; discriminate H.
  - rewrite !escapeHtml_cons in H. apply entity_prefix_free in H as (-> & H).
    f_equal. now apply IH.
Qed.

Lemma escapeHtml_injective_witness :
  escapeHtml "a<b" = escapeHtml "a<b" /\ "a<b" = "a<b".
Proof. split; [reflexivity | apply (escapeHtml_injective "a<b" "a<b"); reflexivity]. Defined.
